(** * user-searching-api: the search route of [app.py] and the loader of [seed.py]

    A shallow embedding of the Flask route [users], of [parse_lat_lng] and of
    the seed script, with the properties of the written specification stated
    and proved over it.

    Python's builtins ([int], [float], [int * float]) and PostgreSQL (the
    [earthdistance] functions, whether the server accepts a statement, the
    order in which it returns rows) are not code of the repository: they are
    the two interfaces [Builtins] and [EarthDistance] below, and every
    theorem holds for all their implementations.  A small exact-decimal
    instance is given at the end of the definitions and used to run the
    examples. *)

From stdpp Require Import gmap strings list fin_maps.
From Stdlib Require Import Ascii QArith Qabs.

Set Warnings "-register-all,-clear-no-such-hyp".
#[local] Open Scope Z_scope.

(** ** Python builtins *)

(** What the code uses of Python's numbers.  [None] stands for the exception
    the builtin raises: [ValueError] for the two parsers, [OverflowError] for
    the conversion of an [int] that is too large for a [float]. *)
Class Builtins (F : Type) := {
  py_int : string → option Z;          (* int(s) *)
  py_float : string → option F;        (* float(s) *)
  int_to_float : Z → option F;         (* the int operand of int * float *)
  float_mul : F → F → F;               (* float * float *)
  float_lit : Z → Z → F;               (* the literal  m * 10^e *)
}.

(** ** [str.split(sep, maxsplit)] *)

Fixpoint split (sep : ascii) (maxsplit : nat) (s : string) : list string :=
  match s with
  | EmptyString => [EmptyString]
  | String c s' =>
      if Ascii.eqb c sep then
        match maxsplit with
        | O => [s]
        | S m => EmptyString :: split sep m s'
        end
      else
        match split sep maxsplit s' with
        | f :: fs => String c f :: fs
        | [] => [String c EmptyString]
        end
  end.

(** Number of occurrences of a character; a string has one more
    [sep]-separated field than it has occurrences of [sep]. *)
Fixpoint count_char (sep : ascii) (s : string) : nat :=
  match s with
  | EmptyString => O
  | String c s' => (if Ascii.eqb c sep then 1 else 0) + count_char sep s'
  end%nat.

Definition comma : ascii := ",".

(** ** [parse_lat_lng] *)

Section ParseLatLng.
Context {F : Type} `{!Builtins F}.

(** The function returns a pair of floats or the pair [(None, None)];
    [Some (lat, lng)] is the former and [None] the latter.  The tuple
    unpacking [lat, lng = ...] raises [ValueError] unless the list has
    exactly two items, and so does [float] on a field it rejects; both are
    caught by the one [except ValueError]. *)
Definition parse_lat_lng (origin : string) : option (F * F) :=
  match split comma 2 origin with
  | [lat; lng] =>
      match py_float lat with
      | Some lat =>
          match py_float lng with
          | Some lng => Some (lat, lng)
          | None => None
          end
      | None => None
      end
  | _ => None
  end.
End ParseLatLng.

(** ** Exceptions *)

(** The ways a request can fail in the code below; each ends the request
    with a server error instead of a JSON body. *)
Inductive error :=
  | OverflowError     (* Python: int too large to convert to float *)
  | ValueError        (* psycopg2: a string parameter holds a NUL character *)
  | DatabaseError.    (* PostgreSQL rejected the statement *)

Inductive result (A : Type) :=
  | Ok (a : A)
  | Raise (e : error).
Arguments Ok {A} a.
Arguments Raise {A} e.

#[global] Instance result_ret : MRet result := λ A a, Ok a.
#[global] Instance result_bind : MBind result := λ A B f m,
  match m with Ok a => f a | Raise e => Raise e end.
#[global] Instance result_fmap : FMap result := λ A B f m,
  match m with Ok a => Ok (f a) | Raise e => Raise e end.

Definition succeeds {A} (m : result A) : Prop := ∃ a, m = Ok a.

(** ** Data model: the tables [users] and [locations] *)

Module User.
Record t := { id : Z; name : string; age : Z; gender : string }.
End User.

Module Location.
Record t (E : Type) := { id : Z; user_id : Z; name : string; location : E }.
Arguments id {E} _.
Arguments user_id {E} _.
Arguments name {E} _.
Arguments location {E} _.
End Location.

Record Database (E : Type) := {
  users_table : list User.t;
  locations_table : list (Location.t E);
}.
Arguments users_table {E} _.
Arguments locations_table {E} _.

(** The relationship [user.locations] (the backref of [Location.user]). *)
Definition locations {E} (db : Database E) (user : User.t) : list (Location.t E) :=
  filter (λ l, Location.user_id l = User.id user) (locations_table db).

(** ** Python values that end up in the JSON body *)

Inductive pyval (F : Type) :=
  | PStr (s : string)
  | PInt (n : Z)
  | PFloat (x : F)
  | PList (l : list (pyval F))
  | PDict (d : gmap string (pyval F)).
Arguments PStr {F} s.
Arguments PInt {F} n.
Arguments PFloat {F} x.
Arguments PList {F} l.
Arguments PDict {F} d.

(** [v[key]] for a dict. *)
Definition item {F} (key : string) (v : pyval F) : option (pyval F) :=
  match v with PDict d => d !! key | _ => None end.

(** ** The query string: werkzeug's [MultiDict] *)

(** Pairs in the order of the URL; a key may occur several times and [get]
    reads its first value.  [get] with a [type] returns the default when the
    key is missing and when the conversion raises [ValueError]. *)
Abbreviation MultiDict := (list (string * string)).

Fixpoint getitem (args : MultiDict) (key : string) : option string :=
  match args with
  | [] => None
  | (k, v) :: args' => if decide (k = key) then Some v else getitem args' key
  end.

Definition get {A} (args : MultiDict) (key : string) (default : A)
    (type : string → option A) : A :=
  match getitem args key with
  | None => default
  | Some rv => match type rv with Some rv' => rv' | None => default end
  end.

(** The same request without the parameter [key]. *)
Definition without (key : string) (args : MultiDict) : MultiDict :=
  filter (λ kv, kv.1 ≠ key) args.

(** ** Queries *)

Section QuerySyntax.
Context {F E : Type}.

(** The expressions the route passes to [Query.filter]. *)
Inductive criterion :=
  | GenderEq (gender : string)          (* User.gender == gender *)
  | AgeGe (min_age : Z)                 (* User.age >= min_age *)
  | AgeLe (max_age : Z)                 (* User.age <= max_age *)
  | LocationsAny (pt : E) (meters : F). (* User.locations.any(
                                             earth_distance(Location.location, pt) < meters) *)

(** A query over [User]: the criteria joined by AND, in the order they were
    added, and the LIMIT and OFFSET clauses. *)
Record Query := {
  whereclause : list criterion;
  limit_clause : option Z;
  offset_clause : option Z;
}.

Definition User_query : Query :=
  {| whereclause := []; limit_clause := None; offset_clause := None |}.

Definition Query_filter (q : Query) (c : criterion) : Query :=
  {| whereclause := whereclause q ++ [c];
     limit_clause := limit_clause q; offset_clause := offset_clause q |}.

Definition Query_limit (q : Query) (limit : Z) : Query :=
  {| whereclause := whereclause q;
     limit_clause := Some limit; offset_clause := offset_clause q |}.

Definition Query_offset (q : Query) (offset : Z) : Query :=
  {| whereclause := whereclause q;
     limit_clause := limit_clause q; offset_clause := Some offset |}.
End QuerySyntax.
Arguments criterion : clear implicits.
Arguments Query : clear implicits.

(** ** PostgreSQL *)

(** What the code uses of PostgreSQL: the [earthdistance] extension, the
    comparison of two [double precision] values, and how the server runs a
    statement.  The route gives no ORDER BY, so the order of the rows of an
    answer is the server's choice for that statement: [row_order], of which
    only the fact that it keeps the rows is known.  The server can also
    refuse a statement that the route built ([executes] is then [false]): it
    does so, for one, when [ll_to_earth] is given a [nan] or an infinity
    that [float] has accepted. *)
Class EarthDistance (F E : Type) := {
  ll_to_earth : F → F → E;
  earth_distance : E → E → F;
  latitude : E → F;
  longitude : E → F;
  float_lt : F → F → bool;
  executes : Database E → Query F E → bool;
  row_order : Database E → Query F E → list User.t → list User.t;
  row_order_Permutation db q rows : row_order db q rows ≡ₚ rows;
}.

Section Query.
Context {F E : Type} `{!Builtins F, !EarthDistance F E}.

Definition satisfies (db : Database E) (user : User.t) (c : criterion F E) : Prop :=
  match c with
  | GenderEq gender => User.gender user = gender
  | AgeGe min_age => min_age ≤ User.age user
  | AgeLe max_age => User.age user ≤ max_age
  | LocationsAny pt meters =>
      Exists (λ l, float_lt (earth_distance (Location.location l) pt) meters = true)
             (locations db user)
  end.

#[global] Instance satisfies_dec db user c : Decision (satisfies db user c).
Proof. destruct c; simpl; apply _. Defined.

(** The rows that the WHERE clause keeps.  The list stands for the set of
    these rows: the order of an answer is [row_order]'s, not this one. *)
Definition matching (db : Database E) (cs : list (criterion F E)) : list User.t :=
  filter (λ user, Forall (satisfies db user) cs) (users_table db).

(** PostgreSQL takes LIMIT and OFFSET as [bigint] and rejects a negative
    one ("LIMIT must not be negative", "OFFSET must not be negative") and
    one that is out of range. *)
Definition row_count (clause : option Z) : result (option nat) :=
  match clause with
  | None => Ok None
  | Some n => if decide (0 ≤ n < 2 ^ 63) then Ok (Some (Z.to_nat n))
              else Raise DatabaseError
  end.

(** psycopg2 refuses to send a string parameter that holds a NUL character;
    the gender is the one string that the route binds. *)
Definition has_nul (s : string) : bool :=
  existsb (Ascii.eqb "000"%char) (String.list_ascii_of_string s).

Definition bindable (c : criterion F E) : bool :=
  match c with
  | GenderEq gender => negb (has_nul gender)
  | _ => true
  end.

(** Running a statement: the parameters are bound, then the server checks
    LIMIT and OFFSET and runs the statement or refuses it; the rows come in
    the server's order, OFFSET of them are skipped and at most LIMIT are
    kept. *)
Definition Query_all (db : Database E) (q : Query F E) : result (list User.t) :=
  if forallb bindable (whereclause q) then
    limit ← row_count (limit_clause q);
    offset ← row_count (offset_clause q);
    if executes db q then
      let rows := drop (default O offset) (row_order db q (matching db (whereclause q))) in
      Ok (match limit with Some n => take n rows | None => rows end)
    else Raise DatabaseError
  else Raise ValueError.

(** [Query.count]: SELECT count of the rows of the query. *)
Definition Query_count (db : Database E) (q : Query F E) : result Z :=
  rows ← Query_all db q; Ok (Z.of_nat (length rows)).
End Query.

(** ** The route [/users] *)

Section Route.
Context {F E : Type} `{!Builtins F, !EarthDistance F E}.

(** Our API lets users query by mile; DB uses meters for filtering. *)
Definition MILE_TO_METER : F := float_lit 160934 (-2).

(** [type=int] with the default [None]. *)
Definition int_or_none (s : string) : option (option Z) := Some <$> py_int s.

(** The local state of the route while the filters are added: the query
    [q] and the dict [metadata_query]. *)
Definition building : Type := Query F E * gmap string (pyval F).

Definition filter_gender (gender : option string) (st : building) : building :=
  match gender with
  | Some (String _ _ as gender) =>
      (Query_filter st.1 (GenderEq gender), <["gender" := PStr gender]> st.2)
  | _ => st
  end.

Definition filter_min_age (min_age : option Z) (st : building) : building :=
  match min_age with
  | Some min_age =>
      (Query_filter st.1 (AgeGe min_age), <["min_age" := PInt min_age]> st.2)
  | None => st
  end.

Definition filter_max_age (max_age : option Z) (st : building) : building :=
  match max_age with
  | Some max_age =>
      (Query_filter st.1 (AgeLe max_age), <["max_age" := PInt max_age]> st.2)
  | None => st
  end.

Definition filter_origin (origin : option string) (dist : option Z)
    (st : building) : result building :=
  match origin, dist with
  | Some (String _ _ as origin), Some dist =>
      match parse_lat_lng origin with
      | Some (lat, lng) =>
          let pt := ll_to_earth lat lng in
          match int_to_float dist with
          | Some dist' =>
              let meters := float_mul dist' MILE_TO_METER in
              Ok (Query_filter st.1 (LocationsAny pt meters),
                  <["dist" := PInt dist]> (<["origin" := PStr origin]> st.2))
          | None => Raise OverflowError
          end
      | None => Ok st
      end
  | _, _ => Ok st
  end.

(** One entry of ["features"]. *)
Definition feature (location : Location.t E) : pyval F :=
  PDict {[
    "type" := PStr "feature";
    "properties" := PDict {[ "city" := PStr (Location.name location) ]};
    "geometry" := PDict {[
      "type" := PStr "Point";
      "coordinates" := PList [PFloat (longitude (Location.location location));
                              PFloat (latitude (Location.location location))] ]} ]}.

(** One entry of ["results"]. *)
Definition result_entry (db : Database E) (user : User.t) : pyval F :=
  let features := feature <$> locations db user in
  PDict {[
    "type" := PStr "user";
    "locationHistory" := PDict {[
      "type" := PStr "FeatureCollection";
      "features" := PList features ]};
    "properties" := PDict {[
      "id" := PInt (User.id user);
      "name" := PStr (User.name user);
      "age" := PInt (User.age user);
      "gender" := PStr (User.gender user) ]} ]}.

(** The filters of the request, before pagination. *)
Definition build (args : MultiDict) : result building :=
  let gender := get args "gender" None (λ s, Some (Some s)) in
  let min_age := get args "min_age" None int_or_none in
  let max_age := get args "max_age" None int_or_none in
  let origin := get args "origin" None (λ s, Some (Some s)) in
  let dist := get args "dist" None int_or_none in
  let st := (User_query, ∅) in
  let st := filter_gender gender st in
  let st := filter_min_age min_age st in
  let st := filter_max_age max_age st in
  filter_origin origin dist st.

Definition users (db : Database E) (args : MultiDict) : result (pyval F) :=
  let limit := get args "limit" 5 py_int in
  let start := get args "start" 0 py_int in
  '(q, metadata_query) ← build args;
  (* Count of num results before any pagination *)
  total_results ← Query_count db q;
  (* Provide pagination *)
  let q := Query_offset (Query_limit q limit) start in
  let metadata_query := <["limit" := PInt limit]> metadata_query in
  let metadata_query := <["start" := PInt start]> metadata_query in
  (* Execute query, build JSON *)
  let metadata := PDict {[ "path" := PStr "/users"; "query" := PDict metadata_query ]} in
  rows ← Query_all db q;
  let results := result_entry db <$> rows in
  Ok (PDict {[
    "metadata" := metadata;
    "total_results" := PInt total_results;
    "num_results" := PInt (Z.of_nat (length results));
    "results" := PList results ]}).
End Route.

(** ** [seed.py] *)

Module Seed.
(** One row of [csv.DictReader]: every column is a string. *)
Record row := {
  user_id : string;
  user_name : string;
  user_age : string;
  user_gender : string;
  last_location : string;
  lat : string;
  long : string;
}.

(** The objects handed to [db.session.add], with the keyword arguments of
    their constructors. *)
Inductive model :=
  | NewUser (id name age gender : string)
  | NewLocation (user_id name : string) (lat long : string).

(** The set [user_ids] and the session, in the order of the calls. *)
Record state := { user_ids : gset string; session : list model }.

Definition init : state := {| user_ids := ∅; session := [] |}.

(** The body of the [for] loop. *)
Definition step (st : state) (r : row) : state :=
  let st :=
    if decide (user_id r ∉ user_ids st) then
      let user := NewUser (user_id r) (user_name r) (user_age r) (user_gender r) in
      {| user_ids := user_ids st ∪ {[ user_id r ]};
         session := session st ++ [user] |}
    else st in
  let location := NewLocation (user_id r) (last_location r) (lat r) (long r) in
  {| user_ids := user_ids st; session := session st ++ [location] |}.

Definition seed (rows : list row) : state := foldl step init rows.

(** The two kinds of objects in a session. *)
Definition is_user (m : model) : bool :=
  match m with NewUser _ _ _ _ => true | NewLocation _ _ _ _ => false end.

Definition users_added (st : state) : list model :=
  List.filter is_user (session st).

Definition locations_added (st : state) : list model :=
  List.filter (λ m, negb (is_user m)) (session st).

Definition user_of_row (r : row) : model :=
  NewUser (user_id r) (user_name r) (user_age r) (user_gender r).

Definition location_of_row (r : row) : model :=
  NewLocation (user_id r) (last_location r) (lat r) (long r).

(** The first row of the file that bears a given [user_id]. *)
Fixpoint first_row (uid : string) (rows : list row) : option row :=
  match rows with
  | [] => None
  | r :: rows' => if decide (user_id r = uid) then Some r else first_row uid rows'
  end.

Definition model_id (m : model) : string :=
  match m with NewUser id _ _ _ => id | NewLocation uid _ _ _ => uid end.
End Seed.

(** ** The vocabulary of the properties

    What the specification calls a parameter that passed validation, a
    filter that was applied and the body of the answer.  These definitions
    follow the words of the specification; [build_spec] and [users_spec]
    below compare them with the route. *)

Section Vocabulary.
Context {F E : Type} `{!Builtins F, !EarthDistance F E}.
Implicit Types (db : Database E) (args : MultiDict).
Implicit Types (cs : list (criterion F E)).

(** *** The parameters that pass validation *)

Definition limit_of (args : MultiDict) : Z := get args "limit" 5 py_int.
Definition start_of (args : MultiDict) : Z := get args "start" 0 py_int.

(** A gender that is present and not empty. *)
Definition valid_gender (args : MultiDict) : option string :=
  match getitem args "gender" with
  | Some (String _ _ as gender) => Some gender
  | _ => None
  end.

Definition valid_min_age (args : MultiDict) : option Z :=
  getitem args "min_age" ≫= py_int.

Definition valid_max_age (args : MultiDict) : option Z :=
  getitem args "max_age" ≫= py_int.

(** An origin that is present, not empty and well formed, together with a
    dist that is an integer. *)
Definition valid_origin_dist (args : MultiDict) : option (string * Z * (F * F)) :=
  match getitem args "origin", getitem args "dist" ≫= py_int with
  | Some (String _ _ as origin), Some dist =>
      match parse_lat_lng origin with
      | Some pt => Some (origin, dist, pt)
      | None => None
      end
  | _, _ => None
  end.

(** The criterion of the geospatial filter. *)
Definition within (pt : F * F) (dist' : F) : criterion F E :=
  LocationsAny (ll_to_earth pt.1 pt.2) (float_mul dist' MILE_TO_METER).

(** The criteria of the three plain filters, in the order of the code. *)
Definition plain_criteria (args : MultiDict) : list (criterion F E) :=
  option_list (GenderEq <$> valid_gender args)
  ++ option_list (AgeGe <$> valid_min_age args)
  ++ option_list (AgeLe <$> valid_max_age args).

Definition insert_if {V} (key : string) (v : option V) (m : gmap string V) :=
  match v with Some v => <[key := v]> m | None => m end.

Definition plain_metadata (args : MultiDict) : gmap string (pyval F) :=
  insert_if "max_age" (PInt <$> valid_max_age args)
    (insert_if "min_age" (PInt <$> valid_min_age args)
       (insert_if "gender" (PStr <$> valid_gender args) ∅)).

Definition plain (args : MultiDict) : building :=
  ({| whereclause := plain_criteria args;
      limit_clause := None; offset_clause := None |},
   plain_metadata args).

(** *** The answer *)

(** The values PostgreSQL accepts as LIMIT and OFFSET. *)
Definition in_range (n : Z) : Prop := 0 ≤ n < 2 ^ 63.

(** The two statements of a request: the count and the page. *)
Definition unpaginated cs : Query F E :=
  {| whereclause := cs; limit_clause := None; offset_clause := None |}.

Definition paginated cs (limit start : Z) : Query F E :=
  {| whereclause := cs; limit_clause := Some limit; offset_clause := Some start |}.

(** The server runs both statements. *)
Definition accepted db cs (limit start : Z) : Prop :=
  executes db (unpaginated cs) = true
  ∧ in_range limit ∧ in_range start
  ∧ executes db (paginated cs limit start) = true.

#[global] Instance accepted_dec db cs limit start :
  Decision (accepted db cs limit start).
Proof. unfold accepted, in_range. apply _. Defined.

(** The rows of one page of the rows that match, in the server's order. *)
Definition page db cs (limit start : Z) : list User.t :=
  take (Z.to_nat limit)
    (drop (Z.to_nat start)
       (row_order db (paginated cs limit start) (matching db cs))).

(** The body of a successful response. *)
Definition response db cs (metadata_query : gmap string (pyval F))
    (limit start : Z) : pyval F :=
  let results := result_entry db <$> page db cs limit start in
  PDict {[
    "metadata" := PDict {[
      "path" := PStr "/users";
      "query" := PDict (<["start" := PInt start]>
                          (<["limit" := PInt limit]> metadata_query)) ]};
    "total_results" := PInt (Z.of_nat (length (matching db cs)));
    "num_results" := PInt (Z.of_nat (length results));
    "results" := PList results ]}.

(** The cases in which the route has no origin and distance to filter by. *)
Definition no_origin_dist (args : MultiDict) : Prop :=
  getitem args "origin" = None
  ∨ getitem args "origin" = Some EmptyString
  ∨ getitem args "dist" = None
  ∨ (∃ rv, getitem args "dist" = Some rv ∧ py_int rv = None)
  ∨ (∃ origin, getitem args "origin" = Some origin
               ∧ parse_lat_lng (F:=F) origin = None).

(** The parameters of the request that a criterion comes from. *)
Definition parameters (c : criterion F E) : list string :=
  match c with
  | GenderEq _ => ["gender"]
  | AgeGe _ => ["min_age"]
  | AgeLe _ => ["max_age"]
  | LocationsAny _ _ => ["origin"; "dist"]
  end.
End Vocabulary.

(** ** An instance for running the code

    Floats as exact rationals and a parser for plain decimal numerals
    (optional surrounding white space, optional sign, digits, optional
    fraction), on which it agrees with [int] and [float]; an [int] converts
    when it is in the range of a double; the earth as a grid, with taxicab
    distance at 111195 meters per degree; a server that runs every statement
    and returns the rows in table order.  The instance only serves the
    examples: no theorem depends on it. *)

Module Decimal.
Fixpoint lstrip (s : string) : string :=
  match s with
  | String c s' => if strings.Ascii.is_space c then lstrip s' else s
  | EmptyString => EmptyString
  end.

Definition strip (s : string) : string :=
  String.rev (lstrip (String.rev (lstrip s))).

Fixpoint digits (acc : Z) (s : string) : option Z :=
  match s with
  | EmptyString => Some acc
  | String c s' =>
      match strings.Ascii.is_nat c with
      | Some d => digits (10 * acc + Z.of_nat d) s'
      | None => None
      end
  end.

Definition numeral (s : string) : option Z :=
  match s with EmptyString => None | _ => digits 0 s end.

Definition signed {A} (opp : A → A) (body : string → option A) (s : string) : option A :=
  match s with
  | String "-" s' => opp <$> body s'
  | String "+" s' => body s'
  | _ => body s
  end.

Definition int (s : string) : option Z := signed Z.opp numeral (strip s).

Definition fraction (s : string) : option Q :=
  match split "." 1 s with
  | [i] => inject_Z <$> numeral i
  | [i; f] =>
      match i, f with
      | EmptyString, EmptyString => None
      | _, _ =>
          match digits 0 i, digits 0 f with
          | Some n, Some m =>
              let scale := 10 ^ Z.of_nat (String.length f) in
              Some (Qred (Qmake (n * scale + m) (Z.to_pos scale)))
          | _, _ => None
          end
      end
  | _ => None
  end.

Definition float (s : string) : option Q := signed (λ x, Qred (Qopp x)) fraction (strip s).

Definition lit (m e : Z) : Q :=
  Qred (if decide (0 ≤ e) then inject_Z (m * 10 ^ e) else Qmake m (Z.to_pos (10 ^ (- e)))).

(** An [int] that rounds to a double beyond the largest one does not
    convert. *)
Definition to_float (n : Z) : option Q :=
  if decide (Z.abs n < 2 ^ 1024 - 2 ^ 970)%Z then Some (inject_Z n) else None.

Definition dist (p q : Q * Q) : Q :=
  Qred (inject_Z 111195 * (Qabs (p.1 - q.1) + Qabs (p.2 - q.2)))%Q.

#[export] Instance builtins : Builtins Q := {|
  py_int := int;
  py_float := float;
  int_to_float := to_float;
  float_mul x y := Qred (x * y)%Q;
  float_lit := lit;
|}.

#[export] Instance earthdistance : EarthDistance Q (Q * Q) := {|
  ll_to_earth lat lng := (lat, lng);
  earth_distance := dist;
  latitude := fst;
  longitude := snd;
  float_lt x y := negb (Qle_bool y x);
  executes _ _ := true;
  row_order _ _ rows := rows;
  row_order_Permutation _ _ rows := Permutation_refl rows;
|}.
End Decimal.

(** ** A small database

    Four users around Philadelphia, for the examples; one has two locations
    and one has none. *)

Module Example.
Import Decimal.

Definition ann : User.t :=
  {| User.id := 1; User.name := "Ann"; User.age := 34; User.gender := "f" |}.
Definition bob : User.t :=
  {| User.id := 2; User.name := "Bob"; User.age := 50; User.gender := "m" |}.
Definition cat : User.t :=
  {| User.id := 3; User.name := "Cat"; User.age := 38; User.gender := "f" |}.
Definition dee : User.t :=
  {| User.id := 4; User.name := "Dee"; User.age := 25; User.gender := "f" |}.

Definition place (id user_id : Z) (name : string) (lat lng : Q) : Location.t (Q * Q) :=
  {| Location.id := id; Location.user_id := user_id; Location.name := name;
     Location.location := (lat, lng) |}.

Definition db : Database (Q * Q) :=
  {| users_table := [ann; bob; cat; dee];
     locations_table :=
       [ place 1 1 "Boston" (4236 # 100) (-7106 # 100);
         place 2 2 "Utica" (431 # 10) (-752 # 10);
         place 3 1 "Camden" (3994 # 100) (-7512 # 100);
         place 4 4 "Trenton" (4022 # 100) (-7476 # 100) ] |}.

(** [/users?gender=f&limit=2&start=0] *)
Definition by_gender : MultiDict := [("gender", "f"); ("limit", "2"); ("start", "0")].

(** [/users?gender=f&min_age=30&max_age=40] *)
Definition by_age : MultiDict := [("gender", "f"); ("min_age", "30"); ("max_age", "40")].

(** [/users?origin=40.0,-75.0&dist=50] *)
Definition nearby : MultiDict := [("origin", "40.0,-75.0"); ("dist", "50")].

(** [/users?gender=&origin=40.0&dist=50&limit=many&min_age=old] *)
Definition sloppy : MultiDict :=
  [("gender", EmptyString); ("origin", "40.0"); ("dist", "50"); ("limit", "many");
   ("min_age", "old")].

(** A dist of 1 followed by 309 zeros, with a valid origin. *)
Definition too_far : MultiDict :=
  [("origin", "40.0,-75.0");
   ("dist", String "1" (String.string_of_list_ascii (replicate 309 "0"%char)))].

(** [/users?page=3&gender=f&limit=2&start=0] *)
Definition with_unknown : MultiDict := ("page", "3") :: by_gender.

(** [/users?min_age=40&max_age=30] *)
Definition upside_down : MultiDict := [("min_age", "40"); ("max_age", "30")].

(** The database after Bob has been seen in Camden too. *)
Definition db_later : Database (Q * Q) :=
  {| users_table := users_table db;
     locations_table :=
       locations_table db ++ [place 5 2 "Camden" (3994 # 100) (-7512 # 100)] |}.

Definition csv : list Seed.row :=
  [ {| Seed.user_id := "1"; Seed.user_name := "Ann"; Seed.user_age := "34";
       Seed.user_gender := "f"; Seed.last_location := "Boston";
       Seed.lat := "42.36"; Seed.long := "-71.06" |};
    {| Seed.user_id := "2"; Seed.user_name := "Bob"; Seed.user_age := "50";
       Seed.user_gender := "m"; Seed.last_location := "Utica";
       Seed.lat := "43.1"; Seed.long := "-75.2" |};
    {| Seed.user_id := "1"; Seed.user_name := "Anna"; Seed.user_age := "35";
       Seed.user_gender := "f"; Seed.last_location := "Camden";
       Seed.lat := "39.94"; Seed.long := "-75.12" |} ].
End Example.

(** * Properties *)

(** ** [split] *)

Section SplitFacts.
Variable sep : ascii.

Lemma split_nonempty maxsplit s : split sep maxsplit s ≠ [].
Proof.
  destruct s as [|c s]; simpl; [done|].
  destruct (Ascii.eqb c sep); [by destruct maxsplit|].
  by destruct (split sep maxsplit s).
Qed.

(** A string without the separator is one field. *)
Lemma split_one_field maxsplit s :
  count_char sep s = O → split sep maxsplit s = [s].
Proof.
  induction s as [|c s IH]; simpl; [done|].
  destruct (Ascii.eqb c sep); [done|]. intros Hc. by rewrite IH.
Qed.

(** The first separator ends the first field. *)
Lemma split_first_field maxsplit field rest :
  count_char sep field = O →
  split sep (S maxsplit) (field +:+ String sep rest) = field :: split sep maxsplit rest.
Proof.
  induction field as [|c field IH]; simpl.
  - by rewrite Ascii.eqb_refl.
  - destruct (Ascii.eqb c sep); [done|]. intros Hc.
    change (String.append field (String sep rest)) with (field +:+ String sep rest).
    by rewrite IH.
Qed.

(** The list has one item per field, up to [maxsplit + 1] items. *)
Lemma split_length maxsplit s :
  length (split sep maxsplit s) = S (Nat.min maxsplit (count_char sep s)).
Proof.
  revert maxsplit. induction s as [|c s IH]; intros maxsplit; simpl.
  - by rewrite Nat.min_0_r.
  - destruct (Ascii.eqb c sep) eqn:Hc.
    + destruct maxsplit as [|m]; simpl; [done|]. by rewrite IH.
    + specialize (IH maxsplit).
      destruct (split sep maxsplit s) as [|f fs]; simpl in *; [done|]. by rewrite IH.
Qed.

(** A string with a separator is a first field, the separator and a rest. *)
Lemma count_char_S s n :
  count_char sep s = S n →
  ∃ field rest, s = field +:+ String sep rest ∧
                count_char sep field = O ∧ count_char sep rest = n.
Proof.
  induction s as [|c s IH]; simpl; [done|].
  destruct (Ascii.eqb c sep) eqn:Hc; simpl.
  - apply Ascii.eqb_eq in Hc as ->. intros [= Hn].
    exists EmptyString, s. by rewrite <- Hn.
  - intros (field & rest & -> & Hf & Hr)%IH.
    exists (String c field), rest. simpl. by rewrite Hc.
Qed.
End SplitFacts.

(** ** [parse_lat_lng] *)

Section ParseLatLngFacts.
Context {F : Type} `{!Builtins F}.

Lemma parse_lat_lng_fields lat lng :
  count_char comma lat = O → count_char comma lng = O →
  parse_lat_lng (lat +:+ String comma lng) =
    (x ← py_float lat; y ← py_float lng; Some (x, y)).
Proof.
  intros Hlat Hlng. unfold parse_lat_lng.
  rewrite split_first_field, (split_one_field _ 1 lng) by done.
  destruct (py_float lat); simpl; [|done]. by destruct (py_float lng).
Qed.

Lemma parse_lat_lng_field_count origin :
  count_char comma origin ≠ 1%nat → parse_lat_lng origin = None.
Proof.
  intros Hn. unfold parse_lat_lng.
  pose proof (split_length comma 2 origin) as Hlen.
  destruct (split comma 2 origin) as [|lat [|lng [|? ?]]]; try done.
  cbn [length] in Hlen. lia.
Qed.

Lemma parse_lat_lng_empty : parse_lat_lng (F:=F) EmptyString = None.
Proof. done. Qed.

(** Only a string of two fields that [float] accepts parses. *)
Lemma parse_lat_lng_Some origin x y :
  parse_lat_lng origin = Some (x, y) →
  ∃ lat lng, origin = lat +:+ String comma lng
             ∧ count_char comma lat = O ∧ count_char comma lng = O
             ∧ py_float lat = Some x ∧ py_float lng = Some y.
Proof.
  intros Hparse.
  destruct (decide (count_char comma origin = 1%nat)) as [Hone|Hne];
    [|by rewrite parse_lat_lng_field_count in Hparse].
  destruct (count_char_S _ _ _ Hone) as (lat & lng & -> & Hlat & Hlng).
  exists lat, lng. rewrite parse_lat_lng_fields in Hparse by done.
  destruct (py_float lat) as [x'|]; [|done].
  destruct (py_float lng) as [y'|]; [|done].
  by injection Hparse as -> ->.
Qed.

(** C2. A string [lat,lng] of two comma-free fields that [float] accepts
    (white space after the comma is part of the second field, which
    [float] strips) parses to exactly the two floats, in that order; a
    string with another number of fields than two, and one with a field
    that [float] rejects, parses to the invalid result, so that a result is
    never anything but the two floats of a two-field string. *)
Theorem parse_lat_lng_spec :
  (∀ lat lng x y,
      count_char comma lat = O → count_char comma lng = O →
      py_float lat = Some x → py_float lng = Some y →
      parse_lat_lng (lat +:+ String comma lng) = Some (x, y))
  ∧ (∀ origin, count_char comma origin ≠ 1%nat → parse_lat_lng origin = None)
  ∧ (∀ lat lng,
      count_char comma lat = O → count_char comma lng = O →
      py_float lat = None ∨ py_float lng = None →
      parse_lat_lng (lat +:+ String comma lng) = None)
  ∧ (∀ origin x y,
      parse_lat_lng origin = Some (x, y) →
      ∃ lat lng, origin = lat +:+ String comma lng
                 ∧ count_char comma lat = O ∧ count_char comma lng = O
                 ∧ py_float lat = Some x ∧ py_float lng = Some y).
Proof.
  split_and!; [| | |apply parse_lat_lng_Some].
  - intros lat lng x y Hlat Hlng Hx Hy.
    by rewrite parse_lat_lng_fields, Hx, Hy.
  - apply parse_lat_lng_field_count.
  - intros lat lng Hlat Hlng Hnone. rewrite parse_lat_lng_fields by done.
    destruct Hnone as [-> | ->]; [done|]. by destruct (py_float lat).
Qed.
End ParseLatLngFacts.

(** ** The query string *)

Section ArgsFacts.
Context {A : Type}.
Implicit Types (args : MultiDict) (key : string).

Lemma getitem_without_eq key args : getitem (without key args) key = None.
Proof.
  induction args as [|[k v] args IH]; [done|].
  unfold without in *. rewrite filter_cons. simpl.
  destruct (decide (k ≠ key)) as [Hk|Hk]; [|done].
  simpl. by rewrite decide_False.
Qed.

Lemma getitem_without_ne key key' args :
  key' ≠ key → getitem (without key' args) key = getitem args key.
Proof.
  intros Hne. induction args as [|[k v] args IH]; [done|].
  unfold without in *. rewrite filter_cons. simpl.
  destruct (decide (k ≠ key')) as [Hk|Hk]; simpl.
  - by rewrite IH.
  - apply dec_stable in Hk as ->. by rewrite decide_False.
Qed.

Lemma get_without_eq key args (default : A) type :
  get (without key args) key default type = default.
Proof. unfold get. by rewrite getitem_without_eq. Qed.

Lemma get_without_ne key key' args (default : A) type :
  key' ≠ key → get (without key' args) key default type = get args key default type.
Proof. intros Hne. unfold get. by rewrite getitem_without_ne. Qed.

(** A value that the conversion rejects reads as the default. *)
Lemma get_rejected key args (default : A) type rv :
  getitem args key = Some rv → type rv = None →
  get args key default type = default.
Proof. intros Hrv Hty. unfold get. by rewrite Hrv, Hty. Qed.

(** Two query strings that agree on a key read the same. *)
Lemma get_ext key args args' (default : A) type :
  getitem args key = getitem args' key →
  get args key default type = get args' key default type.
Proof. intros Heq. unfold get. by rewrite Heq. Qed.
End ArgsFacts.

(** ** The parameters that pass validation *)

Section Validated.
Context {F E : Type} `{!Builtins F, !EarthDistance F E}.

Lemma get_int_or_none args key :
  get args key None int_or_none = getitem args key ≫= py_int.
Proof.
  unfold get, int_or_none. destruct (getitem args key) as [rv|]; [|done].
  simpl. by destruct (py_int rv).
Qed.

Lemma get_str args key :
  get args key None (λ s, Some (Some s)) = getitem args key.
Proof. unfold get. by destruct (getitem args key). Qed.

(** The state of the route after the three plain filters. *)
Lemma build_plain args :
  build args =
    filter_origin (getitem args "origin") (getitem args "dist" ≫= py_int) (plain args).
Proof.
  unfold build. rewrite !get_int_or_none, !get_str. f_equal.
  unfold plain, plain_criteria, plain_metadata, valid_gender, valid_min_age,
    valid_max_age.
  destruct (getitem args "gender") as [[|c g]|];
    destruct (getitem args "min_age" ≫= py_int);
    destruct (getitem args "max_age" ≫= py_int); done.
Qed.

(** [build], by the parameters that pass validation. *)
Lemma build_spec args :
  build args =
    match valid_origin_dist args with
    | None => Ok (plain args)
    | Some (origin, dist, pt) =>
        match int_to_float dist with
        | Some dist' =>
            Ok ({| whereclause := plain_criteria args ++ [within pt dist'];
                   limit_clause := None; offset_clause := None |},
                <["dist" := PInt dist]> (<["origin" := PStr origin]> (plain_metadata args)))
        | None => Raise OverflowError
        end
    end.
Proof.
  rewrite build_plain. unfold valid_origin_dist, filter_origin.
  destruct (getitem args "origin") as [[|c o]|]; [done| |done].
  destruct (getitem args "dist" ≫= py_int) as [dist|]; [|done].
  destruct (parse_lat_lng (String c o)) as [[lat lng]|]; [|done].
  by destruct (int_to_float dist).
Qed.

Lemma build_unpaginated args q metadata_query :
  build args = Ok (q, metadata_query) →
  limit_clause q = None ∧ offset_clause q = None.
Proof.
  rewrite build_spec. destruct (valid_origin_dist args) as [[[o d] pt]|].
  - destruct (int_to_float d); [|done]. by intros [= <- <-].
  - by intros [= <- <-].
Qed.
End Validated.

(** ** The response of the route *)

Section RouteFacts.
Context {F E : Type} `{!Builtins F, !EarthDistance F E}.
Implicit Types (db : Database E) (args : MultiDict) (user : User.t).
Implicit Types (cs : list (criterion F E)) (r : pyval F).

(** The route fails when [build] fails, when a parameter cannot be bound
    and when the server refuses one of the two statements, and answers with
    [response] otherwise. *)
Lemma users_spec db args :
  users db args =
    '(q, metadata_query) ← build args;
    if forallb bindable (whereclause q) then
      if decide (accepted db (whereclause q) (limit_of args) (start_of args))
      then Ok (response db (whereclause q) metadata_query (limit_of args) (start_of args))
      else Raise DatabaseError
    else Raise ValueError.
Proof.
  unfold users. fold (limit_of args) (start_of args).
  destruct (build args) as [[q mq]|e] eqn:Hbuild; [|done].
  destruct (build_unpaginated _ _ _ Hbuild) as [Hlimit Hoffset].
  destruct q as [cs ? ?]; simpl in Hlimit, Hoffset; subst.
  unfold Query_count, Query_all, Query_offset, Query_limit. cbn.
  destruct (forallb bindable cs); cbn; [|done].
  destruct (decide (accepted db cs (limit_of args) (start_of args)))
    as [(Hcount & Hl & Hs & Hpage)|Hno].
  - unfold unpaginated in Hcount. unfold paginated in Hpage. unfold in_range in Hl, Hs.
    rewrite Hcount. cbn. case_decide; [cbn|lia]. case_decide; [cbn|lia].
    rewrite ?Hpage. cbn. unfold response, page, paginated.
    by rewrite drop_0, row_order_Permutation.
  - unfold accepted, unpaginated, paginated, in_range in Hno.
    destruct (executes db {| whereclause := cs; limit_clause := None;
                              offset_clause := None |}); cbn; [|done].
    destruct (decide (0 ≤ limit_of args < 2 ^ 63)) as [Hl|Hl]; cbn; [|done].
    destruct (decide (0 ≤ start_of args < 2 ^ 63)) as [Hs|Hs]; cbn; [|done].
    destruct (executes db {| whereclause := cs;
                              limit_clause := Some (limit_of args);
                              offset_clause := Some (start_of args) |}); cbn; [|done].
    by destruct Hno.
Qed.

Lemma users_Ok_iff db args r :
  users db args = Ok r ↔
  ∃ q metadata_query,
    build args = Ok (q, metadata_query)
    ∧ forallb bindable (whereclause q) = true
    ∧ accepted db (whereclause q) (limit_of args) (start_of args)
    ∧ r = response db (whereclause q) metadata_query (limit_of args) (start_of args).
Proof.
  rewrite users_spec. split.
  - destruct (build args) as [[q mq]|e]; [|done]. cbn.
    destruct (forallb bindable (whereclause q)) eqn:Hbind; [|done].
    destruct (decide _) as [Hacc|]; [|done].
    intros [= <-]. exists q, mq. by split_and!.
  - intros (q & mq & Hbuild & Hbind & Hacc & ->). rewrite Hbuild. cbn.
    by rewrite Hbind, decide_True.
Qed.

Lemma users_Ok db args r :
  users db args = Ok r →
  ∃ q metadata_query,
    build args = Ok (q, metadata_query) ∧
    in_range (limit_of args) ∧ in_range (start_of args) ∧
    r = response db (whereclause q) metadata_query (limit_of args) (start_of args).
Proof.
  intros (q & mq & Hbuild & _ & (_ & Hl & Hs & _) & ->)%users_Ok_iff.
  by exists q, mq.
Qed.

(** The route reads five parameters besides [limit] and [start]. *)
Lemma build_ext args args' :
  (∀ key, key ≠ "limit" → key ≠ "start" → getitem args' key = getitem args key) →
  build args' = build args.
Proof.
  intros Hext. unfold build.
  rewrite (get_ext "gender" args' args), (get_ext "min_age" args' args),
    (get_ext "max_age" args' args), (get_ext "origin" args' args),
    (get_ext "dist" args' args); [done|by apply Hext..].
Qed.

Lemma build_without key args :
  key ∉ ["gender"; "min_age"; "max_age"; "origin"; "dist"] →
  build (without key args) = build args.
Proof.
  intros Hkey. unfold build.
  rewrite !(get_without_ne _ key); [done|intros ->; apply Hkey; set_solver..].
Qed.

Lemma response_total db cs mq limit start :
  item "total_results" (response db cs mq limit start)
  = Some (PInt (Z.of_nat (length (matching db cs)))).
Proof. done. Qed.

Lemma response_num db cs mq limit start :
  item "num_results" (response db cs mq limit start)
  = Some (PInt (Z.of_nat (length (page db cs limit start)))).
Proof. unfold response, item. by rewrite length_fmap. Qed.

Lemma response_results db cs mq limit start :
  item "results" (response db cs mq limit start)
  = Some (PList (result_entry db <$> page db cs limit start)).
Proof. done. Qed.

Lemma response_query db cs mq limit start :
  item "metadata" (response db cs mq limit start) ≫= item "query"
  = Some (PDict (<["start" := PInt start]> (<["limit" := PInt limit]> mq))).
Proof. done. Qed.

Lemma page_length db cs limit start :
  (length (page db cs limit start) ≤ length (matching db cs))%nat
  ∧ (length (page db cs limit start) ≤ Z.to_nat limit)%nat.
Proof.
  unfold page. rewrite length_take, length_drop, row_order_Permutation. lia.
Qed.

Lemma page_subseteq db cs limit start : page db cs limit start ⊆ matching db cs.
Proof.
  unfold page. etrans; [apply subseteq_take|]. etrans; [apply subseteq_drop|].
  by rewrite row_order_Permutation.
Qed.

(** A row matches when it is a row of the table that satisfies every
    criterion. *)
Lemma elem_of_matching db cs user :
  user ∈ matching db cs ↔
  user ∈ users_table db ∧ ∀ c, c ∈ cs → satisfies db user c.
Proof. unfold matching. rewrite list_elem_of_filter, Forall_forall. tauto. Qed.

Lemma matching_Permutation db cs cs' : cs ≡ₚ cs' → matching db cs = matching db cs'.
Proof.
  intros Hperm. unfold matching. apply list_filter_iff.
  intros user. by rewrite Hperm.
Qed.

Lemma matching_snoc db cs c user :
  user ∈ matching db (cs ++ [c]) ↔ user ∈ matching db cs ∧ satisfies db user c.
Proof.
  rewrite !elem_of_matching. split.
  - intros [Huser Hall]. split_and!; [done| |].
    + intros c' Hc'. apply Hall, elem_of_app. by left.
    + apply Hall, elem_of_app. right. by apply list_elem_of_singleton.
  - intros [[Huser Hall] Hc]. split; [done|].
    intros c' [Hc'| ->%list_elem_of_singleton]%elem_of_app; auto.
Qed.

(** [build] and the route depend on the query string only through the
    parameters that pass validation. *)
Lemma build_congr args args' :
  valid_gender args' = valid_gender args →
  valid_min_age args' = valid_min_age args →
  valid_max_age args' = valid_max_age args →
  valid_origin_dist (F:=F) args' = valid_origin_dist args →
  build args' = build args.
Proof.
  intros Hg Hmin Hmax Hgeo. rewrite !build_spec.
  unfold plain, plain_criteria, plain_metadata.
  by rewrite Hg, Hmin, Hmax, Hgeo.
Qed.

Lemma users_congr db args args' :
  build args' = build args →
  limit_of args' = limit_of args → start_of args' = start_of args →
  users db args' = users db args.
Proof. intros Hb Hl Hs. rewrite !users_spec. by rewrite Hb, Hl, Hs. Qed.

Lemma valid_gender_without key args :
  key ≠ "gender" → valid_gender (without key args) = valid_gender args.
Proof. intros Hne. unfold valid_gender. by rewrite getitem_without_ne. Qed.

Lemma valid_min_age_without key args :
  key ≠ "min_age" → valid_min_age (without key args) = valid_min_age args.
Proof. intros Hne. unfold valid_min_age. by rewrite getitem_without_ne. Qed.

Lemma valid_max_age_without key args :
  key ≠ "max_age" → valid_max_age (without key args) = valid_max_age args.
Proof. intros Hne. unfold valid_max_age. by rewrite getitem_without_ne. Qed.

Lemma valid_origin_dist_without key args :
  key ≠ "origin" → key ≠ "dist" →
  valid_origin_dist (F:=F) (without key args) = valid_origin_dist args.
Proof.
  intros Ho Hd. unfold valid_origin_dist. by rewrite !getitem_without_ne.
Qed.

Lemma valid_origin_dist_without_origin args :
  valid_origin_dist (F:=F) (without "origin" args) = None.
Proof. unfold valid_origin_dist. by rewrite getitem_without_eq. Qed.

(** The criteria of the plain filters never contain the geospatial one. *)
Lemma plain_criteria_not_geo args (pt : E) (meters : F) :
  LocationsAny pt meters ∉ plain_criteria args.
Proof.
  unfold plain_criteria.
  destruct (valid_gender args), (valid_min_age args), (valid_max_age args);
    simpl; rewrite ?elem_of_cons, ?elem_of_nil; naive_solver.
Qed.

(** The request without [origin] and [dist] has the plain filters only. *)
Lemma build_without_origin_dist args :
  build (without "origin" (without "dist" args)) = Ok (plain args).
Proof.
  rewrite build_spec, valid_origin_dist_without_origin.
  unfold plain, plain_criteria, plain_metadata.
  by rewrite !valid_gender_without, !valid_min_age_without, !valid_max_age_without.
Qed.
End RouteFacts.

(** ** Pagination *)

Section Pagination.
Context {F E : Type} `{!Builtins F, !EarthDistance F E}.
Implicit Types (db : Database E) (args : MultiDict) (r : pyval F).

(** The route answers whenever [build] does, the parameters can be bound
    and the server runs the two statements. *)
Lemma users_succeeds db args q metadata_query :
  build args = Ok (q, metadata_query) →
  forallb bindable (whereclause q) = true →
  accepted db (whereclause q) (limit_of args) (start_of args) →
  succeeds (users db args).
Proof.
  intros Hbuild Hbind Hacc. eexists. apply users_Ok_iff.
  by exists q, metadata_query.
Qed.

(** C3. In every response, [total_results] is the number of users that
    match the filters of the request, before LIMIT and OFFSET;
    [num_results] is at most [total_results] and at most the effective
    limit; and a request that differs in [limit] and [start] only has the
    same [total_results]. *)
Theorem total_results_spec db args r :
  users db args = Ok r →
  ∃ q metadata_query (total num : Z),
    build args = Ok (q, metadata_query)
    ∧ item "total_results" r = Some (PInt total)
    ∧ item "num_results" r = Some (PInt num)
    ∧ total = Z.of_nat (length (matching db (whereclause q)))
    ∧ num ≤ total
    ∧ num ≤ limit_of args
    ∧ ∀ args' r',
        (∀ key, key ≠ "limit" → key ≠ "start" →
                getitem args' key = getitem args key) →
        users db args' = Ok r' →
        item "total_results" r' = Some (PInt total).
Proof.
  intros (q & mq & Hbuild & Hl & Hs & ->)%users_Ok.
  exists q, mq. eexists _, _.
  split_and!; [done|apply response_total|apply response_num|done|..].
  - pose proof (page_length db (whereclause q) (limit_of args) (start_of args)). lia.
  - pose proof (page_length db (whereclause q) (limit_of args) (start_of args)).
    destruct Hl. lia.
  - intros args' r' Hext (q' & mq' & Hbuild' & _ & _ & ->)%users_Ok.
    rewrite (build_ext args args') in Hbuild' by done.
    rewrite Hbuild in Hbuild'. injection Hbuild' as <- <-.
    apply response_total.
Qed.
End Pagination.

(** ** Parameters that are ignored *)

Section Ignored.
Context {F E : Type} `{!Builtins F, !EarthDistance F E}.
Implicit Types (db : Database E) (args : MultiDict) (r : pyval F).

Lemma no_origin_dist_invalid args :
  no_origin_dist args → valid_origin_dist (F:=F) args = None.
Proof.
  unfold valid_origin_dist.
  intros [Ho|[Ho|[Hd|[(rv & Hd & Hrv)|(origin & Ho & Hparse)]]]].
  - by rewrite Ho.
  - by rewrite Ho.
  - rewrite Hd. simpl. by destruct (getitem args "origin") as [[|]|].
  - rewrite Hd. simpl. rewrite Hrv. by destruct (getitem args "origin") as [[|]|].
  - rewrite Ho, Hparse. destruct origin; [done|].
    by destruct (getitem args "dist" ≫= py_int).
Qed.

(** C6. Without an origin, with an empty or malformed one, and without a
    dist or with one that is not an integer, the route adds no geospatial
    criterion, and its query, the users that match and its whole answer
    are those of the same request without [origin] and [dist]. *)
Theorem no_geospatial_filter db args :
  no_origin_dist args →
  let args' := without "origin" (without "dist" args) in
  ∃ q metadata_query,
    build args = Ok (q, metadata_query)
    ∧ (∀ pt meters, LocationsAny pt meters ∉ whereclause q)
    ∧ build args' = Ok (q, metadata_query)
    ∧ users db args = users db args'.
Proof.
  intros Hno%no_origin_dist_invalid args'.
  exists (plain (E:=E) args).1, (plain (E:=E) args).2.
  assert (build (E:=E) args = Ok (plain args)) as Hbuild.
  { rewrite build_spec. by rewrite Hno. }
  split_and!; [done| |apply build_without_origin_dist|].
  - intros pt meters. apply plain_criteria_not_geo.
  - symmetry. apply users_congr.
    + subst args'. by rewrite build_without_origin_dist.
    + unfold limit_of. subst args'. by rewrite !get_without_ne.
    + unfold start_of. subst args'. by rewrite !get_without_ne.
Qed.

Lemma AgeGe_not_plain args (n : Z) :
  valid_min_age args = None → AgeGe n ∉ plain_criteria (F:=F) (E:=E) args.
Proof.
  intros Hmin. unfold plain_criteria. rewrite Hmin.
  destruct (valid_gender args), (valid_max_age args);
    simpl; rewrite ?elem_of_cons, ?elem_of_nil; naive_solver.
Qed.

Lemma AgeLe_not_plain args (n : Z) :
  valid_max_age args = None → AgeLe n ∉ plain_criteria (F:=F) (E:=E) args.
Proof.
  intros Hmax. unfold plain_criteria. rewrite Hmax.
  destruct (valid_gender args), (valid_min_age args);
    simpl; rewrite ?elem_of_cons, ?elem_of_nil; naive_solver.
Qed.

Lemma GenderEq_not_plain args (g : string) :
  valid_gender args = None → GenderEq g ∉ plain_criteria (F:=F) (E:=E) args.
Proof.
  intros Hg. unfold plain_criteria. rewrite Hg.
  destruct (valid_min_age args), (valid_max_age args);
    simpl; rewrite ?elem_of_cons, ?elem_of_nil; naive_solver.
Qed.

(** The criteria of a query that [build] returns. *)
Lemma build_whereclause args q metadata_query :
  build args = Ok (q, metadata_query) →
  whereclause q = plain_criteria args
  ∨ ∃ pt meters, whereclause q = plain_criteria args ++ [LocationsAny pt meters].
Proof.
  rewrite build_spec. destruct (valid_origin_dist args) as [[[o d] pt]|].
  - destruct (int_to_float d); [|done]. intros [= <- <-]. right. by eexists _, _.
  - intros [= <- <-]. by left.
Qed.

Lemma not_in_whereclause args q metadata_query c :
  build args = Ok (q, metadata_query) →
  (∀ pt meters, c ≠ LocationsAny pt meters) →
  c ∉ plain_criteria args → c ∉ whereclause q.
Proof.
  intros [->|(pt & meters & ->)]%build_whereclause Hc Hplain; [done|].
  rewrite elem_of_app, list_elem_of_singleton. naive_solver.
Qed.

(** The metadata of a query that [build] returns, at the keys of the plain
    filters. *)
Lemma build_metadata_plain args q metadata_query key :
  build args = Ok (q, metadata_query) →
  key ≠ "origin" → key ≠ "dist" →
  metadata_query !! key = plain_metadata args !! key.
Proof.
  rewrite build_spec. destruct (valid_origin_dist args) as [[[o d] pt]|].
  - destruct (int_to_float d); [|done]. intros [= <- <-] Ho Hd.
    by rewrite !lookup_insert_ne.
  - by intros [= <- <-].
Qed.

Lemma plain_metadata_gender args :
  plain_metadata (F:=F) args !! "gender" = PStr <$> valid_gender args.
Proof.
  unfold plain_metadata.
  by destruct (valid_gender args), (valid_min_age args), (valid_max_age args).
Qed.

Lemma plain_metadata_min_age args :
  plain_metadata (F:=F) args !! "min_age" = PInt <$> valid_min_age args.
Proof.
  unfold plain_metadata.
  by destruct (valid_gender args), (valid_min_age args), (valid_max_age args).
Qed.

Lemma plain_metadata_max_age args :
  plain_metadata (F:=F) args !! "max_age" = PInt <$> valid_max_age args.
Proof.
  unfold plain_metadata.
  by destruct (valid_gender args), (valid_min_age args), (valid_max_age args).
Qed.
End Ignored.

(** ** Parameters that fail to parse *)

Section ParseFailures.
Context {F E : Type} `{!Builtins F, !EarthDistance F E}.
Implicit Types (db : Database E) (args : MultiDict) (r : pyval F).

Lemma ignored_limit db args rv :
  getitem args "limit" = Some rv → py_int rv = None →
  limit_of args = 5 ∧ users db args = users db (without "limit" args).
Proof.
  intros Hrv Hint.
  assert (limit_of args = 5) as Hl by by eapply get_rejected.
  split; [done|]. symmetry. apply users_congr.
  - apply build_without. set_solver.
  - rewrite Hl. apply get_without_eq.
  - by apply get_without_ne.
Qed.

Lemma ignored_start db args rv :
  getitem args "start" = Some rv → py_int rv = None →
  start_of args = 0 ∧ users db args = users db (without "start" args).
Proof.
  intros Hrv Hint.
  assert (start_of args = 0) as Hs by by eapply get_rejected.
  split; [done|]. symmetry. apply users_congr.
  - apply build_without. set_solver.
  - by apply get_without_ne.
  - rewrite Hs. apply get_without_eq.
Qed.

Lemma ignored_min_age db args rv :
  getitem args "min_age" = Some rv → py_int rv = None →
  valid_min_age args = None ∧ users db args = users db (without "min_age" args).
Proof.
  intros Hrv Hint.
  assert (valid_min_age args = None) as Hmin.
  { unfold valid_min_age. by rewrite Hrv. }
  split; [done|]. symmetry. apply users_congr.
  - apply build_congr.
    + by apply valid_gender_without.
    + rewrite Hmin. unfold valid_min_age. by rewrite getitem_without_eq.
    + by apply valid_max_age_without.
    + by apply valid_origin_dist_without.
  - by apply get_without_ne.
  - by apply get_without_ne.
Qed.

Lemma ignored_max_age db args rv :
  getitem args "max_age" = Some rv → py_int rv = None →
  valid_max_age args = None ∧ users db args = users db (without "max_age" args).
Proof.
  intros Hrv Hint.
  assert (valid_max_age args = None) as Hmax.
  { unfold valid_max_age. by rewrite Hrv. }
  split; [done|]. symmetry. apply users_congr.
  - apply build_congr.
    + by apply valid_gender_without.
    + by apply valid_min_age_without.
    + rewrite Hmax. unfold valid_max_age. by rewrite getitem_without_eq.
    + by apply valid_origin_dist_without.
  - by apply get_without_ne.
  - by apply get_without_ne.
Qed.

(** C7. A [limit], [start], [min_age] or [max_age] that is not an integer
    raises nothing: the route answers as it does to the same request
    without that parameter.  The limit is then 5 and the start 0, and they
    are what [metadata.query] shows; a [min_age] or [max_age] adds no
    criterion and no key.  The request succeeds exactly when the request
    without the parameter does, and the rejected value adds no condition
    to that: it is enough that the filters are built, that they can be
    bound, that the server runs the two statements and that the other one
    of [limit] and [start] is accepted. *)
Theorem parse_failures_ignored db args key rv :
  key ∈ ["limit"; "start"; "min_age"; "max_age"] →
  getitem args key = Some rv → py_int rv = None →
  users db args = users db (without key args)
  ∧ (key = "limit" → limit_of args = 5)
  ∧ (key = "start" → start_of args = 0)
  ∧ (∀ q metadata_query, build args = Ok (q, metadata_query) →
       (key = "min_age" →
          metadata_query !! "min_age" = None ∧ ∀ n, AgeGe n ∉ whereclause q)
       ∧ (key = "max_age" →
          metadata_query !! "max_age" = None ∧ ∀ n, AgeLe n ∉ whereclause q))
  ∧ (∀ r, users db args = Ok r →
       ∃ query, item "metadata" r ≫= item "query" = Some (PDict query)
         ∧ (key = "limit" → query !! "limit" = Some (PInt 5))
         ∧ (key = "start" → query !! "start" = Some (PInt 0))
         ∧ (key = "min_age" ∨ key = "max_age" → query !! key = None))
  ∧ (succeeds (users db args) ↔ succeeds (users db (without key args)))
  ∧ (∀ q metadata_query,
       build args = Ok (q, metadata_query) →
       forallb bindable (whereclause q) = true →
       executes db (unpaginated (whereclause q)) = true →
       executes db (paginated (whereclause q) (limit_of args) (start_of args)) = true →
       (key ≠ "limit" → in_range (limit_of args)) →
       (key ≠ "start" → in_range (start_of args)) →
       succeeds (users db args)).
Proof.
  intros Hkey Hrv Hint.
  assert ((key = "min_age" → valid_min_age args = None)
          ∧ (key = "max_age" → valid_max_age args = None)
          ∧ (key = "limit" → limit_of args = 5)
          ∧ (key = "start" → start_of args = 0)
          ∧ users db args = users db (without key args))
    as (Hmin & Hmax & Hl & Hs & Heq).
  { rewrite !elem_of_cons, elem_of_nil in Hkey.
    destruct Hkey as [->|[->|[->|[->|[]]]]].
    - by destruct (ignored_limit db args rv).
    - by destruct (ignored_start db args rv).
    - by destruct (ignored_min_age db args rv).
    - by destruct (ignored_max_age db args rv). }
  split_and!; [done..| | |by rewrite Heq|].
  - intros q mq Hbuild. split; intros ->.
    + split.
      * rewrite (build_metadata_plain args q mq) by done.
        by rewrite plain_metadata_min_age, Hmin.
      * intros n. eapply not_in_whereclause; [done..|]. by apply AgeGe_not_plain, Hmin.
    + split.
      * rewrite (build_metadata_plain args q mq) by done.
        by rewrite plain_metadata_max_age, Hmax.
      * intros n. eapply not_in_whereclause; [done..|]. by apply AgeLe_not_plain, Hmax.
  - intros r (q & mq & Hbuild & _ & _ & ->)%users_Ok.
    eexists. split; [apply response_query|]. split_and!.
    + intros Hk. rewrite lookup_insert_ne, lookup_insert_eq by done. by rewrite Hl.
    + intros Hk. rewrite lookup_insert_eq. by rewrite Hs.
    + intros [-> | ->]; rewrite !lookup_insert_ne by done;
        rewrite (build_metadata_plain args q mq) by done.
      * by rewrite plain_metadata_min_age, Hmin.
      * by rewrite plain_metadata_max_age, Hmax.
  - intros q mq Hbuild Hbind Hcount Hpage Hlimit Hstart.
    eapply users_succeeds; [done..|]. split_and!; [done| | |done].
    + destruct (decide (key = "limit")) as [Hk|Hk]; [|by apply Hlimit].
      rewrite (Hl Hk). by unfold in_range.
    + destruct (decide (key = "start")) as [Hk|Hk]; [|by apply Hstart].
      rewrite (Hs Hk). by unfold in_range.
Qed.

(** C10. A gender that is present and empty is taken as no gender: the
    route adds no criterion on the gender and no ["gender"] key, and
    answers as it does to the same request without the parameter. *)
Theorem empty_gender_is_absent db args :
  getitem args "gender" = Some EmptyString →
  users db args = users db (without "gender" args)
  ∧ build (E:=E) args = build (without "gender" args)
  ∧ (∀ q metadata_query, build args = Ok (q, metadata_query) →
       metadata_query !! "gender" = None ∧ ∀ g, GenderEq g ∉ whereclause q)
  ∧ (∀ r, users db args = Ok r →
       ∃ query, item "metadata" r ≫= item "query" = Some (PDict query)
                ∧ query !! "gender" = None).
Proof.
  intros Hgender.
  assert (valid_gender args = None) as Hg.
  { unfold valid_gender. by rewrite Hgender. }
  assert (build (E:=E) (without "gender" args) = build args) as Hbuild.
  { apply build_congr.
    - rewrite Hg. unfold valid_gender. by rewrite getitem_without_eq.
    - by apply valid_min_age_without.
    - by apply valid_max_age_without.
    - by apply valid_origin_dist_without. }
  assert (∀ q mq, build (E:=E) args = Ok (q, mq) → mq !! "gender" = None) as Hkey.
  { intros q mq Hb. rewrite (build_metadata_plain args q mq) by done.
    by rewrite plain_metadata_gender, Hg. }
  split_and!; [|done| |].
  - symmetry. apply users_congr; [done|by apply get_without_ne..].
  - intros q mq Hb. split; [by eapply Hkey|].
    intros g. eapply not_in_whereclause; [done..|]. by apply GenderEq_not_plain.
  - intros r (q & mq & Hb & _ & _ & ->)%users_Ok.
    eexists. split; [apply response_query|].
    rewrite !lookup_insert_ne by done. by eapply Hkey.
Qed.
End ParseFailures.

(** ** The filters and [metadata.query] *)

Section Filters.
Context {F E : Type} `{!Builtins F, !EarthDistance F E}.
Implicit Types (db : Database E) (args : MultiDict) (r : pyval F).
Implicit Types (cs : list (criterion F E)) (user : User.t).

Lemma plain_metadata_other args key :
  key ∉ ["gender"; "min_age"; "max_age"] →
  plain_metadata (F:=F) args !! key = None.
Proof.
  rewrite !elem_of_cons, elem_of_nil. intros Hkey. unfold plain_metadata.
  destruct (valid_gender args), (valid_min_age args), (valid_max_age args);
    simpl; rewrite ?lookup_insert_ne by naive_solver; apply lookup_empty.
Qed.

Lemma dom_plain_metadata args :
  dom (plain_metadata (F:=F) args)
  = list_to_set (plain_criteria (F:=F) (E:=E) args ≫= parameters).
Proof.
  unfold plain_metadata, plain_criteria.
  destruct (valid_gender args), (valid_min_age args), (valid_max_age args);
    simpl; rewrite ?dom_insert_L, dom_empty_L; set_solver.
Qed.

(** C5. In every response, [metadata.query] has [limit] and [start] with
    the values the route used; it has [gender], [min_age], [max_age],
    [origin] and [dist] with the values that passed validation, and none of
    them otherwise; its keys are [limit], [start] and the parameters of
    the criteria that the route added to the query, and no others.  For
    [/users?gender=f&limit=2&start=0] it is
    [{"gender": "f", "limit": 2, "start": 0}]. *)
Theorem metadata_query_spec db args r :
  users db args = Ok r →
  ∃ q metadata_query query,
    build args = Ok (q, metadata_query)
    ∧ item "metadata" r ≫= item "query" = Some (PDict query)
    ∧ query !! "limit" = Some (PInt (limit_of args))
    ∧ query !! "start" = Some (PInt (start_of args))
    ∧ query !! "gender" = PStr <$> valid_gender args
    ∧ query !! "min_age" = PInt <$> valid_min_age args
    ∧ query !! "max_age" = PInt <$> valid_max_age args
    ∧ query !! "origin" = (λ v, PStr v.1.1) <$> valid_origin_dist (F:=F) args
    ∧ query !! "dist" = (λ v, PInt v.1.2) <$> valid_origin_dist (F:=F) args
    ∧ dom query = {[ "limit"; "start" ]} ∪ list_to_set (whereclause q ≫= parameters)
    ∧ (args = [("gender", "f"); ("limit", "2"); ("start", "0")] →
       py_int "2" = Some 2 → py_int "0" = Some 0 →
       query = {[ "gender" := PStr "f"; "limit" := PInt 2; "start" := PInt 0 ]}).
Proof.
  intros (q & mq & Hbuild & _ & _ & ->)%users_Ok.
  exists q, mq. eexists. split; [done|]. split; [apply response_query|].
  pose proof Hbuild as Hspec. rewrite build_spec in Hspec.
  split_and!.
  - by rewrite lookup_insert_ne, lookup_insert_eq.
  - by rewrite lookup_insert_eq.
  - rewrite !lookup_insert_ne by done.
    rewrite (build_metadata_plain args q mq) by done. apply plain_metadata_gender.
  - rewrite !lookup_insert_ne by done.
    rewrite (build_metadata_plain args q mq) by done. apply plain_metadata_min_age.
  - rewrite !lookup_insert_ne by done.
    rewrite (build_metadata_plain args q mq) by done. apply plain_metadata_max_age.
  - rewrite !lookup_insert_ne by done.
    destruct (valid_origin_dist args) as [[[o d] pt]|].
    + destruct (int_to_float d); [|done]. injection Hspec as <- <-.
      by rewrite lookup_insert_ne, lookup_insert_eq.
    + injection Hspec as <- <-. apply plain_metadata_other. set_solver.
  - rewrite !lookup_insert_ne by done.
    destruct (valid_origin_dist args) as [[[o d] pt]|].
    + destruct (int_to_float d); [|done]. injection Hspec as <- <-.
      by rewrite lookup_insert_eq.
    + injection Hspec as <- <-. apply plain_metadata_other. set_solver.
  - rewrite !dom_insert_L.
    destruct (valid_origin_dist args) as [[[o d] pt]|].
    + destruct (int_to_float d); [|done]. injection Hspec as <- <-.
      rewrite !dom_insert_L, dom_plain_metadata. cbn [whereclause].
      rewrite bind_app, list_to_set_app_L. simpl. set_solver.
    + injection Hspec as <- <-. rewrite dom_plain_metadata. simpl. set_solver.
  - intros -> H2 H0. unfold limit_of, start_of, get. simpl. rewrite H2, H0.
    cbn in Hspec. injection Hspec as <- <-. done.
Qed.

(** C1. With an origin that parses and a dist that is an integer (and that
    Python converts to a float), the route adds one criterion to the other
    filters, and the users that match are those that match the other
    filters and have at least one location whose [earth_distance] to the
    origin is less than dist times 1609.34 meters.  They are the users that
    [total_results] counts, and every entry of the answer is one of them. *)
Theorem any_location_within db args origin rv dist lat lng dist' :
  getitem args "origin" = Some origin →
  parse_lat_lng origin = Some (lat, lng) →
  getitem args "dist" = Some rv → py_int rv = Some dist →
  int_to_float dist = Some dist' →
  let pt := ll_to_earth lat lng in
  let meters := float_mul dist' (float_lit 160934 (-2)) in
  ∃ q metadata_query others,
    build args = Ok (q, metadata_query)
    ∧ build (without "origin" (without "dist" args)) = Ok others
    ∧ whereclause q = whereclause others.1 ++ [LocationsAny pt meters]
    ∧ (∀ user, user ∈ matching db (whereclause q) ↔
         user ∈ matching db (whereclause others.1)
         ∧ ∃ location, location ∈ locations db user
             ∧ float_lt (earth_distance (Location.location location) pt) meters = true)
    ∧ (∀ r, users db args = Ok r →
         ∃ results,
           item "total_results" r
           = Some (PInt (Z.of_nat (length (matching db (whereclause q)))))
           ∧ item "results" r = Some (PList results)
           ∧ ∀ entry, entry ∈ results →
               ∃ user, entry = result_entry db user
                       ∧ user ∈ matching db (whereclause q)).
Proof.
  intros Ho Hparse Hd Hrv Hfloat pt meters.
  assert (valid_origin_dist args = Some (origin, dist, (lat, lng))) as Hvalid.
  { unfold valid_origin_dist. rewrite Ho, Hd. simpl. rewrite Hrv, Hparse.
    destruct origin; [|done]. by rewrite parse_lat_lng_empty in Hparse. }
  pose proof (build_spec (E:=E) args) as Hbuild.
  rewrite Hvalid, Hfloat in Hbuild.
  eexists _, _, (plain args).
  split; [exact Hbuild|]. split; [apply build_without_origin_dist|].
  split; [done|]. split.
  - intros user. cbn [whereclause fst plain].
    rewrite matching_snoc. unfold within. cbn [satisfies fst snd].
    by rewrite Exists_exists.
  - intros r (q & mq & Hbuild' & _ & _ & ->)%users_Ok.
    rewrite Hbuild in Hbuild'. injection Hbuild' as <- <-.
    eexists. split; [apply response_total|]. split; [apply response_results|].
    intros entry (user & -> & Huser)%list_elem_of_fmap.
    exists user. split; [done|]. by eapply page_subseteq.
Qed.

(** C4. The criteria are joined by AND.  With a gender, a [min_age] and a
    [max_age] that pass validation, every user that matches, and every
    entry of the answer, has that gender and an age between the two; the
    users that match are the rows that satisfy every criterion, whatever
    the order of the criteria. *)
Theorem filters_conjunctive db args gender rv1 min_age rv2 max_age :
  getitem args "gender" = Some gender → gender ≠ EmptyString →
  getitem args "min_age" = Some rv1 → py_int rv1 = Some min_age →
  getitem args "max_age" = Some rv2 → py_int rv2 = Some max_age →
  (∀ q metadata_query user,
      build args = Ok (q, metadata_query) → user ∈ matching db (whereclause q) →
      User.gender user = gender ∧ min_age ≤ User.age user ≤ max_age)
  ∧ (∀ r results entry,
      users db args = Ok r → item "results" r = Some (PList results) →
      entry ∈ results →
      ∃ user, entry = result_entry db user ∧ user ∈ users_table db
              ∧ User.gender user = gender ∧ min_age ≤ User.age user ≤ max_age)
  ∧ (∀ cs cs', cs ≡ₚ cs' → matching db cs = matching db cs')
  ∧ (∀ cs user, user ∈ matching db cs ↔
                user ∈ users_table db ∧ ∀ c, c ∈ cs → satisfies db user c).
Proof.
  intros Hg Hne Hmin Hrv1 Hmax Hrv2.
  assert (plain_criteria (F:=F) (E:=E) args
          = [GenderEq gender; AgeGe min_age; AgeLe max_age]) as Hplain.
  { unfold plain_criteria, valid_gender, valid_min_age, valid_max_age.
    rewrite Hg, Hmin, Hmax. simpl. rewrite Hrv1, Hrv2. by destruct gender. }
  assert (∀ q mq user,
      build args = Ok (q, mq) → user ∈ matching db (whereclause q) →
      user ∈ users_table db
      ∧ User.gender user = gender ∧ min_age ≤ User.age user ≤ max_age) as Hall.
  { intros q mq user Hbuild [Huser Hsat]%elem_of_matching. split; [done|].
    assert (∀ c, c ∈ plain_criteria args → satisfies db user c) as Hsat'.
    { intros c Hc. apply Hsat.
      destruct (build_whereclause _ _ _ Hbuild) as [->|(pt & m & ->)]; [done|].
      apply elem_of_app. by left. }
    rewrite Hplain in Hsat'.
    pose proof (Hsat' (GenderEq gender)) as H1.
    pose proof (Hsat' (AgeGe min_age)) as H2.
    pose proof (Hsat' (AgeLe max_age)) as H3.
    rewrite !elem_of_cons in H1, H2, H3. simpl in H1, H2, H3.
    split_and!; [apply H1|apply H2|apply H3]; auto. }
  split_and!.
  - intros q mq user Hbuild Huser. by eapply Hall.
  - intros r results entry (q & mq & Hbuild & _ & _ & ->)%users_Ok.
    rewrite response_results. intros [= <-] (user & -> & Huser)%list_elem_of_fmap.
    exists user. split; [done|]. eapply Hall; [done|].
    by eapply page_subseteq.
  - apply matching_Permutation.
  - apply elem_of_matching.
Qed.
End Filters.

(** ** The shape of an entry *)

Section Shape.
Context {F E : Type} `{!Builtins F, !EarthDistance F E}.
Implicit Types (db : Database E) (args : MultiDict) (r : pyval F) (user : User.t).

Lemma feature_shape (location : Location.t E) :
  item "geometry" (feature location) ≫= item "coordinates"
  = Some (PList [PFloat (F:=F) (longitude (Location.location location));
                 PFloat (latitude (Location.location location))])
  ∧ item "properties" (feature (F:=F) location) ≫= item "city"
    = Some (PStr (Location.name location))
  ∧ item "geometry" (feature (F:=F) location) ≫= item "type" = Some (PStr "Point").
Proof. done. Qed.

(** C8. Every entry of ["results"] has a ["properties"] object with the
    id, name, age and gender of its user and a ["locationHistory"] that is
    a FeatureCollection with one feature per location of the user, in
    order; the coordinates of a feature are the longitude and then the
    latitude of the location, and its city is the name of the location.
    [num_results] is the length of ["results"]. *)
Theorem response_shape db args r :
  users db args = Ok r →
  ∃ rows results,
    item "results" r = Some (PList results)
    ∧ item "num_results" r = Some (PInt (Z.of_nat (length results)))
    ∧ results = result_entry db <$> rows
    ∧ ∀ i entry, results !! i = Some entry →
        ∃ user features,
          rows !! i = Some user
          ∧ item "properties" entry
            = Some (PDict {[ "id" := PInt (User.id user);
                             "name" := PStr (User.name user);
                             "age" := PInt (User.age user);
                             "gender" := PStr (User.gender user) ]})
          ∧ item "locationHistory" entry
            = Some (PDict {[ "type" := PStr "FeatureCollection";
                             "features" := PList features ]})
          ∧ length features = length (locations db user)
          ∧ ∀ j location, locations db user !! j = Some location →
              ∃ feat, features !! j = Some feat
                ∧ item "geometry" feat ≫= item "coordinates"
                  = Some (PList [PFloat (longitude (Location.location location));
                                 PFloat (latitude (Location.location location))])
                ∧ item "properties" feat ≫= item "city"
                  = Some (PStr (Location.name location)).
Proof.
  intros (q & mq & Hbuild & _ & _ & ->)%users_Ok.
  eexists (page db (whereclause q) (limit_of args) (start_of args)), _.
  split; [apply response_results|].
  split; [by rewrite response_num, length_fmap|]. split; [done|].
  intros i entry (user & -> & Hrow)%list_lookup_fmap_Some.
  exists user, (feature <$> locations db user).
  split_and!; [done|done|done|by rewrite length_fmap|].
  intros j location Hj. exists (feature location).
  split; [by rewrite list_lookup_fmap, Hj|]. split; apply feature_shape.
Qed.
End Shape.

(** ** The loader *)

Section SeedFacts.
Import Seed.
Implicit Types (rows : list row) (r : row) (st : state) (uid : string).

Lemma seed_snoc rows r : seed (rows ++ [r]) = step (seed rows) r.
Proof. unfold seed. by rewrite foldl_app. Qed.

Lemma step_fresh st r :
  user_id r ∉ user_ids st →
  user_ids (step st r) = user_ids st ∪ {[ user_id r ]}
  ∧ users_added (step st r) = users_added st ++ [user_of_row r]
  ∧ locations_added (step st r) = locations_added st ++ [location_of_row r].
Proof.
  intros Hfresh. unfold step, users_added, locations_added.
  rewrite decide_True by done. simpl.
  by rewrite !List.filter_app, !app_nil_r.
Qed.

Lemma step_seen st r :
  user_id r ∈ user_ids st →
  user_ids (step st r) = user_ids st
  ∧ users_added (step st r) = users_added st
  ∧ locations_added (step st r) = locations_added st ++ [location_of_row r].
Proof.
  intros Hseen. unfold step, users_added, locations_added.
  rewrite decide_False by (by intros []). simpl.
  by rewrite !List.filter_app, !app_nil_r.
Qed.

Lemma first_row_snoc uid rows r :
  first_row uid (rows ++ [r]) =
    match first_row uid rows with
    | Some r' => Some r'
    | None => if decide (user_id r = uid) then Some r else None
    end.
Proof.
  induction rows as [|r' rows IH]; simpl; [done|].
  by destruct (decide (user_id r' = uid)).
Qed.

Lemma first_row_None uid rows :
  first_row uid rows = None ↔ uid ∉ user_id <$> rows.
Proof.
  induction rows as [|r rows IH]; simpl.
  - split; [|done]. intros _. apply not_elem_of_nil.
  - rewrite not_elem_of_cons. destruct (decide (user_id r = uid)) as [<-|Hne].
    + split; [done|]. by intros [? _].
    + rewrite IH. split; [|by intros [_ ?]]. by split; [apply not_eq_sym|].
Qed.

(** The set [user_ids] holds the ids of the rows read so far. *)
Lemma user_ids_seed rows uid :
  uid ∈ user_ids (seed rows) ↔ uid ∈ user_id <$> rows.
Proof.
  induction rows as [|r rows IH] using rev_ind.
  - cbn. rewrite elem_of_nil. split; [apply not_elem_of_empty|done].
  - rewrite seed_snoc, fmap_app, elem_of_app.
    change (user_id <$> [r]) with [user_id r]. rewrite list_elem_of_singleton.
    destruct (decide (user_id r ∈ user_ids (seed rows))) as [Hseen|Hfresh].
    + destruct (step_seen _ _ Hseen) as (-> & _ & _).
      rewrite IH. split; [by left|]. intros [?| ->]; [done|]. by apply IH.
    + destruct (step_fresh _ _ Hfresh) as (-> & _ & _).
      rewrite elem_of_union, elem_of_singleton. by rewrite IH.
Qed.

(** The users of the session are the ids of [user_ids]. *)
Lemma users_added_ids rows uid :
  uid ∈ model_id <$> users_added (seed rows) ↔ uid ∈ user_ids (seed rows).
Proof.
  induction rows as [|r rows IH] using rev_ind.
  - cbn. rewrite elem_of_nil. split; [done|apply not_elem_of_empty].
  - rewrite seed_snoc.
    destruct (decide (user_id r ∈ user_ids (seed rows))) as [Hseen|Hfresh].
    + by destruct (step_seen _ _ Hseen) as (-> & -> & _).
    + destruct (step_fresh _ _ Hfresh) as (-> & -> & _).
      rewrite fmap_app, elem_of_app, elem_of_union, IH.
      change (model_id <$> [user_of_row r]) with [user_id r].
      by rewrite list_elem_of_singleton, elem_of_singleton.
Qed.

Lemma users_added_NoDup rows : NoDup (model_id <$> users_added (seed rows)).
Proof.
  induction rows as [|r rows IH] using rev_ind; [constructor|].
  rewrite seed_snoc.
  destruct (decide (user_id r ∈ user_ids (seed rows))) as [Hseen|Hfresh].
  - by destruct (step_seen _ _ Hseen) as (_ & -> & _).
  - destruct (step_fresh _ _ Hfresh) as (_ & -> & _).
    rewrite fmap_app. apply NoDup_app. split; [done|]. split.
    + intros uid Huid [->|[]%elem_of_nil]%elem_of_cons.
      by apply users_added_ids in Huid.
    + apply NoDup_singleton.
Qed.

Lemma users_added_first rows u :
  u ∈ users_added (seed rows) →
  ∃ r, first_row (model_id u) rows = Some r ∧ u = user_of_row r.
Proof.
  induction rows as [|r rows IH] using rev_ind.
  - cbn. by intros ?%elem_of_nil.
  - rewrite seed_snoc.
    destruct (decide (user_id r ∈ user_ids (seed rows))) as [Hseen|Hfresh].
    + destruct (step_seen _ _ Hseen) as (_ & -> & _).
      intros (r' & Hr' & ->)%IH. exists r'. by rewrite first_row_snoc, Hr'.
    + destruct (step_fresh _ _ Hfresh) as (_ & -> & _).
      intros [(r' & Hr' & ->)%IH| ->%list_elem_of_singleton]%elem_of_app.
      * exists r'. by rewrite first_row_snoc, Hr'.
      * exists r. split; [|done]. rewrite first_row_snoc.
        change (model_id (user_of_row r)) with (user_id r).
        rewrite user_ids_seed in Hfresh. apply first_row_None in Hfresh as ->.
        by rewrite decide_True.
Qed.

Lemma locations_added_seed rows :
  locations_added (seed rows) = location_of_row <$> rows.
Proof.
  induction rows as [|r rows IH] using rev_ind; [done|].
  rewrite seed_snoc, fmap_app.
  destruct (decide (user_id r ∈ user_ids (seed rows))) as [Hseen|Hfresh].
  - destruct (step_seen _ _ Hseen) as (_ & _ & ->). by rewrite IH.
  - destruct (step_fresh _ _ Hfresh) as (_ & _ & ->). by rewrite IH.
Qed.

(** C9. The session holds one [User] per distinct [user_id] of the file,
    built from the first row that bears the id, and one [Location] per
    row, in the order of the file, each with the [user_id] of its row. *)
Theorem seed_spec rows :
  NoDup (model_id <$> users_added (seed rows))
  ∧ (∀ uid, uid ∈ model_id <$> users_added (seed rows) ↔ uid ∈ user_id <$> rows)
  ∧ (∀ u, u ∈ users_added (seed rows) →
          ∃ r, first_row (model_id u) rows = Some r ∧ u = user_of_row r)
  ∧ locations_added (seed rows) = location_of_row <$> rows
  ∧ (∀ i r, rows !! i = Some r →
            ∃ l, locations_added (seed rows) !! i = Some l ∧ model_id l = user_id r).
Proof.
  split_and!.
  - apply users_added_NoDup.
  - intros uid. by rewrite users_added_ids, user_ids_seed.
  - apply users_added_first.
  - apply locations_added_seed.
  - intros i r Hi. exists (location_of_row r).
    by rewrite locations_added_seed, list_lookup_fmap, Hi.
Qed.
End SeedFacts.

(** * Further properties of the route *)

Section RouteExtras.
Context {F E : Type} `{!Builtins F, !EarthDistance F E}.
Implicit Types (db : Database E) (args : MultiDict) (r : pyval F).
Implicit Types (cs : list (criterion F E)) (user : User.t).

(** [get] reads the query string as a map from keys to first values. *)
Lemma getitem_list_to_map args key :
  getitem args key = (list_to_map args : gmap string string) !! key.
Proof.
  induction args as [|[k v] args IH]; [done|].
  cbn [getitem]. rewrite list_to_map_cons, lookup_insert.
  by destruct (decide (k = key)).
Qed.

(** X1. The route reads seven parameters and nothing else of the query
    string: two requests that agree on them have the same outcome, so that
    an unknown parameter changes nothing. *)
Theorem users_reads_seven db args args' :
  (∀ key, key ∈ ["gender"; "min_age"; "max_age"; "origin"; "dist"; "limit"; "start"] →
          getitem args' key = getitem args key) →
  users db args' = users db args.
Proof.
  intros Hsame.
  assert (∀ key, key ∈ ["gender"; "min_age"; "max_age"; "origin"; "dist"; "limit"; "start"] →
                 ∀ A (default : A) type,
                   get args' key default type = get args key default type) as Hget.
  { intros key Hkey A default type. by apply get_ext, Hsame. }
  apply users_congr.
  - unfold build. rewrite !Hget by set_solver. done.
  - apply Hget. set_solver.
  - apply Hget. set_solver.
Qed.

(** X2. When no parameter is repeated, the order of the parameters in the
    URL does not matter. *)
Theorem users_Permutation db args args' :
  NoDup args.*1 → args ≡ₚ args' → users db args' = users db args.
Proof.
  intros Hdup Hperm.
  assert (∀ key, getitem args' key = getitem args key) as Hsame.
  { intros key. rewrite !getitem_list_to_map.
    by rewrite (list_to_map_proper args args'). }
  apply users_congr.
  - unfold build, get. by rewrite !Hsame.
  - unfold limit_of, get. by rewrite Hsame.
  - unfold start_of, get. by rewrite Hsame.
Qed.

(** [build] fails on a dist that does not convert, and on nothing else. *)
Lemma build_Raise args e :
  build (E:=E) args = Raise e ↔
  e = OverflowError
  ∧ ∃ origin dist pt, valid_origin_dist (F:=F) args = Some (origin, dist, pt)
                      ∧ int_to_float dist = None.
Proof.
  rewrite build_spec.
  destruct (valid_origin_dist args) as [[[origin dist] pt]|] eqn:Hvalid.
  - destruct (int_to_float dist) as [dist'|] eqn:Hfloat.
    + split; [done|]. intros (_ & o & d & p & [= _ <- _] & Hnone). congruence.
    + split.
      * intros [= <-]. split; [done|]. by exists origin, dist, pt.
      * by intros [-> _].
  - split; [done|]. by intros (_ & o & d & p & ? & _).
Qed.

(** X7. A request fails in three ways only, in this order: with
    [OverflowError], when the geospatial parameters pass validation and the
    dist is too large for a float, before any statement is sent; with
    [ValueError], when the filters were built and the gender holds a NUL
    character, which cannot be bound; and with a database error, when the
    filters were built and bound and the server refuses the count or the
    page, a LIMIT or OFFSET that is negative or out of range included. *)
Theorem users_Raise db args e :
  users db args = Raise e ↔
  (e = OverflowError
   ∧ ∃ origin dist pt, valid_origin_dist (F:=F) args = Some (origin, dist, pt)
                       ∧ int_to_float dist = None)
  ∨ ∃ q metadata_query,
      build args = Ok (q, metadata_query)
      ∧ ((e = ValueError ∧ forallb bindable (whereclause q) = false)
         ∨ (e = DatabaseError
            ∧ forallb bindable (whereclause q) = true
            ∧ ¬ accepted db (whereclause q) (limit_of args) (start_of args))).
Proof.
  rewrite users_spec, <- build_Raise.
  destruct (build args) as [[q mq]|e'] eqn:Hbuild; cbn.
  - destruct (forallb bindable (whereclause q)) eqn:Hbind.
    + destruct (decide _) as [Hacc|Hacc].
      * split; [done|].
        intros [?|(q' & mq' & Hq & [[_ Hnul]|(_ & _ & Hno)])]; [done|..];
          injection Hq as <- <-; [congruence|done].
      * split.
        -- intros [= <-]. right. exists q, mq. split; [done|]. right. done.
        -- intros [?|(q' & mq' & Hq & [[_ Hnul]|(-> & _)])]; [done|..];
             injection Hq as <- <-; [congruence|done].
    + split.
      * intros [= <-]. right. exists q, mq. split; [done|]. by left.
      * intros [?|(q' & mq' & Hq & [[-> _]|(_ & Hyes & _)])]; [done|..];
          injection Hq as <- <-; [done|congruence].
  - split; [intros [= <-]; by left|]. by intros [[= <-]|(q' & mq' & ? & _)].
Qed.

(** X8. The number of entries of an answer is what is left of the users
    that match after [start] of them, up to [limit]:
    [num_results = min(limit, max(0, total_results - start))].  So a start
    at or beyond the total gives an empty page, and a page that has room for
    all gives them all. *)
Theorem num_results_formula db args r :
  users db args = Ok r →
  ∃ total results,
    item "total_results" r = Some (PInt total)
    ∧ item "results" r = Some (PList results)
    ∧ Z.of_nat (length results) = Z.min (limit_of args) (Z.max 0 (total - start_of args))
    ∧ item "num_results" r
      = Some (PInt (Z.min (limit_of args) (Z.max 0 (total - start_of args)))).
Proof.
  intros (q & mq & Hbuild & [Hl _] & [Hs _] & ->)%users_Ok.
  eexists _, _. split; [apply response_total|]. split; [apply response_results|].
  assert (Z.of_nat (length (page db (whereclause q) (limit_of args) (start_of args)))
          = Z.min (limit_of args)
              (Z.max 0 (Z.of_nat (length (matching db (whereclause q))) - start_of args)))
    as Hlen.
  { unfold page. rewrite length_take, length_drop, row_order_Permutation. lia. }
  split; [by rewrite length_fmap|].
  by rewrite response_num, Hlen.
Qed.

Lemma elem_of_plain_criteria args (c : criterion F E) :
  c ∈ plain_criteria args ↔
  (∃ gender, valid_gender args = Some gender ∧ c = GenderEq gender)
  ∨ (∃ min_age, valid_min_age args = Some min_age ∧ c = AgeGe min_age)
  ∨ (∃ max_age, valid_max_age args = Some max_age ∧ c = AgeLe max_age).
Proof.
  unfold plain_criteria.
  destruct (valid_gender args), (valid_min_age args), (valid_max_age args);
    simpl; rewrite ?elem_of_cons, ?elem_of_nil; naive_solver.
Qed.

(** The criteria of the query are those of the parameters that pass
    validation. *)
Lemma elem_of_whereclause args q metadata_query c :
  build args = Ok (q, metadata_query) →
  c ∈ whereclause q ↔
  c ∈ plain_criteria args
  ∨ ∃ origin dist pt dist',
      valid_origin_dist (F:=F) args = Some (origin, dist, pt)
      ∧ int_to_float dist = Some dist' ∧ c = within pt dist'.
Proof.
  rewrite build_spec.
  destruct (valid_origin_dist args) as [[[origin dist] pt]|].
  - destruct (int_to_float dist) as [dist'|] eqn:Hfloat; [|done].
    intros [= <- <-]. cbn [whereclause].
    rewrite elem_of_app, list_elem_of_singleton. split.
    + intros [?| ->]; [by left|]. right. by exists origin, dist, pt, dist'.
    + intros [?|(o & d & p & d' & [= <- <- <-] & Hd' & ->)]; [by left|].
      right. congruence.
  - intros [= <- <-]. cbn [whereclause plain fst]. split; [by left|].
    by intros [?|(o & d & p & d' & ? & _)].
Qed.

Lemma valid_gender_without_Some key args gender :
  valid_gender (without key args) = Some gender → valid_gender args = Some gender.
Proof.
  destruct (decide (key = "gender")) as [->|Hne].
  - unfold valid_gender. by rewrite getitem_without_eq.
  - by rewrite valid_gender_without.
Qed.

Lemma valid_min_age_without_Some key args min_age :
  valid_min_age (without key args) = Some min_age → valid_min_age args = Some min_age.
Proof.
  destruct (decide (key = "min_age")) as [->|Hne].
  - unfold valid_min_age. by rewrite getitem_without_eq.
  - by rewrite valid_min_age_without.
Qed.

Lemma valid_max_age_without_Some key args max_age :
  valid_max_age (without key args) = Some max_age → valid_max_age args = Some max_age.
Proof.
  destruct (decide (key = "max_age")) as [->|Hne].
  - unfold valid_max_age. by rewrite getitem_without_eq.
  - by rewrite valid_max_age_without.
Qed.

Lemma valid_origin_dist_without_Some key args v :
  valid_origin_dist (F:=F) (without key args) = Some v → valid_origin_dist args = Some v.
Proof.
  destruct (decide (key = "origin")) as [->|Ho].
  { by rewrite valid_origin_dist_without_origin. }
  destruct (decide (key = "dist")) as [->|Hd].
  - unfold valid_origin_dist. rewrite getitem_without_eq. cbn.
    by destruct (getitem (without "dist" args) "origin") as [[|]|].
  - by rewrite valid_origin_dist_without.
Qed.

(** Fewer criteria match more rows. *)
Lemma matching_anti db cs cs' :
  (∀ c, c ∈ cs' → c ∈ cs) →
  matching db cs = filter (λ user, Forall (satisfies db user) cs) (matching db cs').
Proof.
  intros Hsub. unfold matching. rewrite list_filter_filter.
  apply list_filter_iff. intros user. rewrite !Forall_forall. naive_solver.
Qed.

(** X3. Filters only narrow: taking a parameter out of a request removes
    criteria and adds none, so every user that matched still matches and
    [total_results] does not go down. *)
Theorem dropping_parameter_widens db args key r r' :
  users db args = Ok r → users db (without key args) = Ok r' →
  ∃ q metadata_query q' metadata_query' (total total' : Z),
    build args = Ok (q, metadata_query)
    ∧ build (without key args) = Ok (q', metadata_query')
    ∧ (∀ c, c ∈ whereclause q' → c ∈ whereclause q)
    ∧ matching db (whereclause q) ⊆ matching db (whereclause q')
    ∧ item "total_results" r = Some (PInt total)
    ∧ item "total_results" r' = Some (PInt total')
    ∧ total ≤ total'.
Proof.
  intros (q & mq & Hbuild & _ & _ & ->)%users_Ok
         (q' & mq' & Hbuild' & _ & _ & ->)%users_Ok.
  assert (∀ c, c ∈ whereclause q' → c ∈ whereclause q) as Hsub.
  { intros c. rewrite (elem_of_whereclause _ _ _ c Hbuild),
      (elem_of_whereclause _ _ _ c Hbuild'), !elem_of_plain_criteria.
    intros [[(g & Hg%valid_gender_without_Some & ->)
            |[(n & Hn%valid_min_age_without_Some & ->)
             |(n & Hn%valid_max_age_without_Some & ->)]]
           |(o & d & p & d' & Hv%valid_origin_dist_without_Some & Hd' & ->)].
    - left. left. by exists g.
    - left. right. left. by exists n.
    - left. right. right. by exists n.
    - right. by exists o, d, p, d'. }
  pose proof (matching_anti db _ _ Hsub) as Hfilter.
  exists q, mq, q', mq'. eexists _, _.
  split_and!; [done|done|done| |apply response_total|apply response_total|].
  - rewrite Hfilter. intros user [_ ?]%list_elem_of_filter. done.
  - rewrite Hfilter. apply inj_le, length_filter.
Qed.

(** X4. A [min_age] above the [max_age] is not an error: the answer is
    empty, with [total_results] 0. *)
Theorem contradictory_ages_empty db args rv1 min_age rv2 max_age r :
  getitem args "min_age" = Some rv1 → py_int rv1 = Some min_age →
  getitem args "max_age" = Some rv2 → py_int rv2 = Some max_age →
  max_age < min_age →
  users db args = Ok r →
  item "total_results" r = Some (PInt 0)
  ∧ item "num_results" r = Some (PInt 0)
  ∧ item "results" r = Some (PList []).
Proof.
  intros Hmin Hrv1 Hmax Hrv2 Hlt (q & mq & Hbuild & _ & _ & ->)%users_Ok.
  assert (matching db (whereclause q) = []) as Hnone.
  { apply elem_of_nil_inv. intros user [_ Hsat]%elem_of_matching.
    assert (AgeGe min_age ∈ whereclause q ∧ AgeLe max_age ∈ whereclause q)
      as [Hge Hle].
    { rewrite !(elem_of_whereclause _ _ _ _ Hbuild), !elem_of_plain_criteria.
      unfold valid_min_age, valid_max_age. rewrite Hmin, Hmax. cbn.
      rewrite Hrv1, Hrv2. split; left; [right; left|right; right]; by eexists. }
    apply Hsat in Hge, Hle. cbn in Hge, Hle. lia. }
  rewrite response_total, response_num, response_results.
  unfold page. rewrite Hnone.
  rewrite (proj1 (Permutation_nil_r _) (row_order_Permutation _ _ [])).
  by rewrite drop_nil, take_nil.
Qed.

(** X5. With a geospatial filter, a user without any location never
    matches. *)
Theorem no_location_no_match db args origin rv dist pt q metadata_query user :
  getitem args "origin" = Some origin → parse_lat_lng origin = Some pt →
  getitem args "dist" = Some rv → py_int rv = Some dist →
  build args = Ok (q, metadata_query) →
  locations db user = [] →
  user ∉ matching db (whereclause q).
Proof.
  intros Ho Hparse Hd Hrv Hbuild Hnone [_ Hsat]%elem_of_matching.
  assert (valid_origin_dist args = Some (origin, dist, pt)) as Hvalid.
  { unfold valid_origin_dist. rewrite Ho, Hd. cbn. rewrite Hrv, Hparse.
    destruct origin; [|done]. by rewrite parse_lat_lng_empty in Hparse. }
  pose proof Hbuild as Hspec. rewrite build_spec, Hvalid in Hspec.
  destruct (int_to_float dist) as [dist'|]; [|done]. injection Hspec as <- <-.
  specialize (Hsat (within pt dist')). cbn in Hsat. rewrite Hnone in Hsat.
  apply Exists_nil in Hsat; [done|]. apply elem_of_app. right. by left.
Qed.

(** X6. The filter on locations is an EXISTS, not a join: a user is counted
    and returned once, however many of their locations are in range.  With
    distinct ids in the table, the entries of an answer are of distinct
    users of the table and [total_results] is at most the number of
    users. *)
Theorem each_user_once db args r :
  NoDup (User.id <$> users_table db) →
  users db args = Ok r →
  ∃ (total : Z) rows,
    item "total_results" r = Some (PInt total)
    ∧ total ≤ Z.of_nat (length (users_table db))
    ∧ item "results" r = Some (PList (result_entry db <$> rows))
    ∧ NoDup (User.id <$> rows)
    ∧ rows ⊆ users_table db.
Proof.
  intros Hdup (q & mq & Hbuild & _ & _ & ->)%users_Ok.
  eexists _, _.
  split_and!; [apply response_total| |apply response_results| |].
  - apply inj_le, length_filter.
  - unfold page.
    eapply sublist_NoDup;
      [|apply fmap_sublist; etrans; [apply sublist_take|apply sublist_drop]].
    rewrite row_order_Permutation.
    eapply sublist_NoDup; [done|]. apply fmap_sublist, sublist_filter.
  - etrans; [apply page_subseteq|]. apply sublist_subseteq, sublist_filter.
Qed.

(** X12. A longer location history never takes a user out of a result:
    with the same users and more rows in [locations], every user that
    matched still matches. *)
Theorem more_locations_more_matches (db db' : Database E) cs :
  users_table db' = users_table db →
  locations_table db ⊆ locations_table db' →
  matching db cs ⊆ matching db' cs.
Proof.
  intros Husers Hlocs user [Huser Hsat]%elem_of_matching.
  apply elem_of_matching. split; [by rewrite Husers|].
  intros c Hc. specialize (Hsat c Hc). destruct c; try done.
  cbn in *. rewrite Exists_exists in *.
  destruct Hsat as (l & [Hid Hl]%list_elem_of_filter & Hnear).
  exists l. split; [|done]. apply list_elem_of_filter. split; [done|]. by apply Hlocs.
Qed.

Lemma getitem_app args args' key :
  getitem (args ++ args') key
  = match getitem args key with Some v => Some v | None => getitem args' key end.
Proof.
  induction args as [|[k v] args IH]; [done|].
  cbn. by destruct (decide (k = key)).
Qed.

Lemma getitem_None args key : getitem args key = None ↔ key ∉ args.*1.
Proof.
  induction args as [|[k v] args IH]; cbn.
  - split; [|done]. intros _. apply not_elem_of_nil.
  - rewrite not_elem_of_cons. destruct (decide (k = key)) as [->|Hne].
    + split; [done|]. by intros [? _].
    + rewrite IH. split; [|by intros [_ ?]]. by split; [apply not_eq_sym|].
Qed.

(** X11. Of a parameter that is repeated the route reads the first value:
    values that follow in the URL for keys already given change nothing. *)
Theorem repeated_parameters_ignored db args args' :
  (∀ kv, kv ∈ args' → kv.1 ∈ args.*1) →
  users db (args ++ args') = users db args.
Proof.
  intros Hrep.
  assert (∀ key, getitem (args ++ args') key = getitem args key) as Hsame.
  { intros key. rewrite getitem_app.
    destruct (getitem args key) eqn:Hkey; [done|].
    apply getitem_None. intros (kv & -> & Hkv)%list_elem_of_fmap.
    apply getitem_None in Hkey. by apply Hkey, Hrep. }
  apply users_congr.
  - unfold build, get. by rewrite !Hsame.
  - unfold limit_of, get. by rewrite Hsame.
  - unfold start_of, get. by rewrite Hsame.
Qed.
End RouteExtras.

(** * Further properties of the loader *)

Section SeedExtras.
Import Seed.
Implicit Types (rows : list row) (r : row) (st : state) (uid : string).

Lemma step_session st r :
  session (step st r)
  = session st
    ++ (if decide (user_id r ∉ user_ids st) then [user_of_row r] else [])
    ++ [location_of_row r].
Proof.
  unfold step. destruct (decide (user_id r ∉ user_ids st)); cbn; [|done].
  by rewrite <- app_assoc.
Qed.

(** An id of [user_ids] is the id of a [User] of the session. *)
Lemma user_ids_session rows uid :
  uid ∈ user_ids (seed rows) →
  ∃ j u, session (seed rows) !! j = Some u ∧ is_user u = true ∧ model_id u = uid.
Proof.
  intros (u & -> & Hu)%users_added_ids%list_elem_of_fmap.
  unfold users_added in Hu. apply list_elem_of_In, List.filter_In in Hu as [Hin Huser].
  apply list_elem_of_In, list_elem_of_lookup_1 in Hin as [j Hj]. by exists j, u.
Qed.

(** X9. The loader never adds a [Location] before its [User]: every
    location of the session comes after a user of the session with the
    [user_id] that the location refers to. *)
Theorem user_before_location rows i l :
  session (seed rows) !! i = Some l → is_user l = false →
  ∃ j u, (j < i)%nat ∧ session (seed rows) !! j = Some u
         ∧ is_user u = true ∧ model_id u = model_id l.
Proof.
  revert i l. induction rows as [|r rows IH] using rev_ind; intros i l; [done|].
  rewrite seed_snoc, step_session.
  destruct (decide (i < length (session (seed rows)))%nat) as [Hold|Hnew].
  - rewrite lookup_app_l by done. intros Hi Hl.
    destruct (IH i l Hi Hl) as (j & u & Hj & Hu & Huser & Hid).
    exists j, u. split_and!; [done| |done..]. rewrite lookup_app_l by lia. done.
  - rewrite lookup_app_r by lia.
    destruct (decide (user_id r ∉ user_ids (seed rows))) as [Hfresh|Hseen].
    + destruct (i - length (session (seed rows)))%nat as [|[|k]] eqn:Hk; cbn;
        intros [= <-] Hl; [done|].
      exists (length (session (seed rows))), (user_of_row r).
      split_and!; [lia| |done..].
      by rewrite list_lookup_middle.
    + apply dec_stable in Hseen.
      destruct (i - length (session (seed rows)))%nat as [|k] eqn:Hk; cbn;
        intros [= <-] Hl.
      destruct (user_ids_session rows _ Hseen) as (j & u & Hj & Huser & Hid).
      exists j, u. apply lookup_lt_Some in Hj as Hlt.
      split_and!; [lia| |done..]. by rewrite lookup_app_l.
Qed.

(** X10. Rows whose [user_id] has been seen add no user, only their
    locations; so a file that holds every row twice yields the same users
    as the file that holds them once. *)
Theorem seen_rows_add_no_user rows rows' :
  (∀ r, r ∈ rows' → user_id r ∈ user_id <$> rows) →
  users_added (seed (rows ++ rows')) = users_added (seed rows)
  ∧ locations_added (seed (rows ++ rows'))
    = locations_added (seed rows) ++ (location_of_row <$> rows').
Proof.
  intros Hseen. split; [|by rewrite !locations_added_seed, fmap_app].
  induction rows' as [|r rows' IH] using rev_ind; [by rewrite app_nil_r|].
  rewrite app_assoc, seed_snoc.
  assert (user_id r ∈ user_ids (seed (rows ++ rows'))) as Hr.
  { apply user_ids_seed. rewrite fmap_app, elem_of_app. left.
    apply Hseen, elem_of_app. right. by left. }
  destruct (step_seen _ _ Hr) as (_ & -> & _).
  apply IH. intros r' Hr'. apply Hseen, elem_of_app. by left.
Qed.
End SeedExtras.

(** * Examples *)

Section Examples.
Import Decimal.
#[local] Open Scope Q_scope.

(** The examples of the docstring of [parse_lat_lng]; 50.5 is 101/2 and
    110.2 is 551/5. *)
Example parse_lat_lng_doc :
  parse_lat_lng "50.5,110.2" = Some (101 # 2, 551 # 5)
  ∧ parse_lat_lng "50.5, 110.2" = Some (101 # 2, 551 # 5)
  ∧ parse_lat_lng (F:=Q) "50.5,110.2,99" = None
  ∧ parse_lat_lng (F:=Q) "so much nope" = None.
Proof. by vm_compute. Qed.

(** Ann is within 50 miles through her second location, Bob's only location
    is some 200 miles away, and Cat has no location. *)
Example nearby_matching :
  (x ← build Example.nearby; Ok (matching Example.db (whereclause x.1)))
  = Ok [Example.ann; Example.dee].
Proof. by vm_compute. Qed.

Example by_age_matching :
  (x ← build Example.by_age; Ok (matching Example.db (whereclause x.1)))
  = Ok [Example.ann; Example.cat].
Proof. by vm_compute. Qed.

(** The whole answer to [/users?gender=f&limit=2&start=0]: three users
    match and the page holds the first two. *)
Example users_by_gender :
  users Example.db Example.by_gender
  = Ok (PDict {[
      "metadata" := PDict {[
        "path" := PStr "/users";
        "query" := PDict {[ "gender" := PStr "f"; "limit" := PInt 2;
                            "start" := PInt 0 ]} ]};
      "total_results" := PInt 3;
      "num_results" := PInt 2;
      "results" := PList [result_entry Example.db Example.ann;
                          result_entry Example.db Example.cat] ]}).
Proof. by vm_compute. Qed.

(** Nothing of the sloppy request is usable: it is answered as the request
    with no parameter is. *)
Example users_sloppy :
  users Example.db Example.sloppy = users Example.db [].
Proof. by vm_compute. Qed.

(** Once Bob has a location in Camden he is within 50 miles too. *)
Example nearby_later :
  (x ← build Example.nearby; Ok (matching Example.db_later (whereclause x.1)))
  = Ok [Example.ann; Example.bob; Example.dee].
Proof. by vm_compute. Qed.

(** A dist beyond the range of a float raises in [int(dist) * MILE_TO_METER]. *)
Example dist_overflow :
  users Example.db Example.too_far = Raise OverflowError.
Proof. by vm_compute. Qed.

(** A gender that holds a NUL character (%00 in the URL) cannot be bound. *)
Example nul_gender :
  users Example.db [("gender", String "000" "f")] = Raise ValueError.
Proof. by vm_compute. Qed.

(** A negative limit is refused by the database, and so is the request. *)
Example negative_limit :
  users Example.db [("limit", "-1")] = Raise DatabaseError.
Proof. by vm_compute. Qed.

Example seed_csv :
  Seed.session (Seed.seed Example.csv)
  = [ Seed.NewUser "1" "Ann" "34" "f";
      Seed.NewLocation "1" "Boston" "42.36" "-71.06";
      Seed.NewUser "2" "Bob" "50" "m";
      Seed.NewLocation "2" "Utica" "43.1" "-75.2";
      Seed.NewLocation "1" "Camden" "39.94" "-75.12" ].
Proof. by vm_compute. Qed.

Lemma parse_lat_lng_spec_witness :
  parse_lat_lng "50.5, 110.2" = Some (101 # 2, 551 # 5)
  ∧ parse_lat_lng (F:=Q) "50.5,110.2,99" = None
  ∧ parse_lat_lng (F:=Q) "50.5,north" = None.
Proof.
  destruct (parse_lat_lng_spec (F:=Q)) as (Hvalid & Hcount & Hfield & _).
  split_and!.
  - exact (Hvalid "50.5" " 110.2" (101 # 2) (551 # 5) eq_refl eq_refl eq_refl eq_refl).
  - apply Hcount. by vm_compute.
  - apply (Hfield "50.5" "north"); [reflexivity..|]. by right.
Defined.

Lemma any_location_within_witness :
  ∃ q metadata_query,
    build Example.nearby = Ok (q, metadata_query)
    ∧ ∀ user, user ∈ matching Example.db (whereclause q) ↔
        user ∈ matching Example.db []
        ∧ ∃ location, location ∈ locations Example.db user
            ∧ float_lt (earth_distance (Location.location location)
                                       (ll_to_earth (40 # 1) (-75 # 1)))
                       (float_mul (inject_Z 50) (float_lit 160934 (-2))) = true.
Proof.
  destruct (@any_location_within Q (Q * Q) builtins earthdistance
              Example.db Example.nearby
              "40.0,-75.0" "50" 50 (40 # 1) (-75 # 1) (inject_Z 50)
              eq_refl eq_refl eq_refl eq_refl eq_refl)
    as (q & mq & others & Hbuild & Hothers & _ & Hiff & _).
  exists q, mq. split; [done|].
  vm_compute in Hothers. injection Hothers as <-. exact Hiff.
Defined.

Lemma total_results_spec_witness :
  ∃ r total num,
    users Example.db Example.by_gender = Ok r
    ∧ item "total_results" r = Some (PInt total)
    ∧ item "num_results" r = Some (PInt num)
    ∧ (num ≤ total)%Z ∧ (num ≤ 2)%Z.
Proof.
  destruct (users Example.db Example.by_gender) as [r|e] eqn:Hr;
    [|by vm_compute in Hr].
  destruct (total_results_spec _ _ _ Hr)
    as (q & mq & total & num & _ & Htotal & Hnum & _ & Hle & Hlimit & _).
  by exists r, total, num.
Defined.

Lemma filters_conjunctive_witness :
  getitem Example.by_age "gender" = Some "f"
  ∧ ∀ q metadata_query user,
      build Example.by_age = Ok (q, metadata_query) →
      user ∈ matching Example.db (whereclause q) →
      User.gender user = "f" ∧ (30 ≤ User.age user ≤ 40)%Z.
Proof.
  split; [reflexivity|].
  refine (proj1 (@filters_conjunctive Q (Q * Q) builtins earthdistance
                   Example.db Example.by_age "f" "30" 30 "40" 40
                   eq_refl _ eq_refl eq_refl eq_refl eq_refl)).
  discriminate.
Defined.

Lemma metadata_query_spec_witness :
  ∃ r, users Example.db Example.by_gender = Ok r
       ∧ item "metadata" r ≫= item "query"
         = Some (PDict {[ "gender" := PStr "f"; "limit" := PInt 2; "start" := PInt 0 ]}).
Proof.
  destruct (users Example.db Example.by_gender) as [r|e] eqn:Hr;
    [|by vm_compute in Hr].
  destruct (metadata_query_spec _ _ _ Hr)
    as (q & mq & query & _ & Hquery & _ & _ & _ & _ & _ & _ & _ & _ & Hexample).
  exists r. split; [done|]. rewrite Hquery. do 2 f_equal.
  exact (Hexample eq_refl eq_refl eq_refl).
Defined.

Lemma no_geospatial_filter_witness :
  no_origin_dist (F:=Q) Example.sloppy
  ∧ users Example.db Example.sloppy
    = users Example.db (without "origin" (without "dist" Example.sloppy)).
Proof.
  assert (no_origin_dist (F:=Q) Example.sloppy) as Hno.
  { do 4 right. by exists "40.0". }
  split; [done|].
  destruct (no_geospatial_filter Example.db _ Hno) as (q & mq & _ & _ & _ & Heq).
  exact Heq.
Defined.

Lemma parse_failures_ignored_witness :
  py_int "many" = None
  ∧ limit_of Example.sloppy = 5%Z
  ∧ users Example.db Example.sloppy = users Example.db (without "limit" Example.sloppy).
Proof.
  split; [reflexivity|].
  destruct (parse_failures_ignored Example.db Example.sloppy "limit" "many")
    as (Heq & Hlimit & _); [set_solver|reflexivity..|].
  split; [by apply Hlimit|done].
Defined.

Lemma response_shape_witness :
  ∃ r rows results,
    users Example.db Example.by_gender = Ok r
    ∧ item "results" r = Some (PList results)
    ∧ item "num_results" r = Some (PInt (Z.of_nat (length results)))
    ∧ results = result_entry Example.db <$> rows.
Proof.
  destruct (users Example.db Example.by_gender) as [r|e] eqn:Hr;
    [|by vm_compute in Hr].
  destruct (response_shape _ _ _ Hr) as (rows & results & Hres & Hnum & Hrows & _).
  by exists r, rows, results.
Defined.

Lemma empty_gender_is_absent_witness :
  getitem Example.sloppy "gender" = Some EmptyString
  ∧ users Example.db Example.sloppy = users Example.db (without "gender" Example.sloppy).
Proof.
  split; [reflexivity|].
  by destruct (empty_gender_is_absent Example.db Example.sloppy eq_refl) as (Heq & _).
Defined.

Lemma users_reads_seven_witness :
  users Example.db Example.with_unknown = users Example.db Example.by_gender.
Proof.
  apply users_reads_seven. intros key Hkey.
  unfold Example.with_unknown. cbn [getitem].
  destruct (decide ("page" = key)) as [<-|]; [|done]. set_solver.
Defined.

Lemma users_Permutation_witness :
  users Example.db (reverse Example.by_gender) = users Example.db Example.by_gender.
Proof.
  apply users_Permutation.
  - compute_done.
  - symmetry. apply reverse_Permutation.
Defined.

Lemma dropping_parameter_widens_witness :
  ∃ r r' (total total' : Z),
    users Example.db Example.by_age = Ok r
    ∧ users Example.db (without "gender" Example.by_age) = Ok r'
    ∧ item "total_results" r = Some (PInt total)
    ∧ item "total_results" r' = Some (PInt total')
    ∧ (total ≤ total')%Z.
Proof.
  destruct (users Example.db Example.by_age) as [r|e] eqn:Hr;
    [|by vm_compute in Hr].
  destruct (users Example.db (without "gender" Example.by_age)) as [r'|e] eqn:Hr';
    [|by vm_compute in Hr'].
  destruct (dropping_parameter_widens _ _ _ _ _ Hr Hr')
    as (_ & _ & _ & _ & total & total' & _ & _ & _ & _ & Ht & Ht' & Hle).
  by exists r, r', total, total'.
Defined.

Lemma contradictory_ages_empty_witness :
  ∃ r, users Example.db Example.upside_down = Ok r
       ∧ item "total_results" r = Some (PInt 0)
       ∧ item "num_results" r = Some (PInt 0)
       ∧ item "results" r = Some (PList []).
Proof.
  destruct (users Example.db Example.upside_down) as [r|e] eqn:Hr;
    [|by vm_compute in Hr].
  exists r. split; [done|].
  exact (@contradictory_ages_empty Q (Q * Q) builtins earthdistance
           Example.db Example.upside_down "40" 40%Z "30" 30%Z r
           eq_refl eq_refl eq_refl eq_refl eq_refl Hr).
Defined.

Lemma no_location_no_match_witness :
  ∃ q metadata_query,
    build Example.nearby = Ok (q, metadata_query)
    ∧ locations Example.db Example.cat = []
    ∧ Example.cat ∉ matching Example.db (whereclause q).
Proof.
  destruct (build (F:=Q) (E:=Q * Q) Example.nearby) as [[q mq]|e] eqn:Hbuild;
    [|by vm_compute in Hbuild].
  exists q, mq. split; [done|]. split; [reflexivity|].
  exact (@no_location_no_match Q (Q * Q) builtins earthdistance
           Example.db Example.nearby "40.0,-75.0" "50" 50%Z (40 # 1, -75 # 1)
           q mq Example.cat eq_refl eq_refl eq_refl eq_refl Hbuild eq_refl).
Defined.

Lemma each_user_once_witness :
  ∃ r rows,
    users Example.db Example.nearby = Ok r
    ∧ item "results" r = Some (PList (result_entry Example.db <$> rows))
    ∧ NoDup (User.id <$> rows).
Proof.
  destruct (users Example.db Example.nearby) as [r|e] eqn:Hr;
    [|by vm_compute in Hr].
  assert (NoDup (User.id <$> users_table Example.db)) as Hdup by compute_done.
  destruct (each_user_once _ _ _ Hdup Hr) as (total & rows & _ & _ & Hres & Hrows & _).
  by exists r, rows.
Defined.

Lemma num_results_formula_witness :
  ∃ r, users Example.db Example.by_gender = Ok r
       ∧ item "total_results" r = Some (PInt 3)
       ∧ item "num_results" r = Some (PInt (Z.min 2 (Z.max 0 (3 - 0)))).
Proof.
  destruct (users Example.db Example.by_gender) as [r|e] eqn:Hr;
    [|by vm_compute in Hr].
  destruct (num_results_formula _ _ _ Hr) as (total & results & Ht & _ & _ & Hn).
  exists r. split; [done|].
  pose proof Hr as Hr'. vm_compute in Hr'. injection Hr' as <-.
  vm_compute in Ht. injection Ht as <-. split; [reflexivity|exact Hn].
Defined.

Lemma user_before_location_witness :
  ∃ j u, (j < 4)%nat
         ∧ Seed.session (Seed.seed Example.csv) !! j = Some u
         ∧ Seed.is_user u = true ∧ Seed.model_id u = "1".
Proof.
  exact (user_before_location Example.csv 4
           (Seed.NewLocation "1" "Camden" "39.94" "-75.12") eq_refl eq_refl).
Defined.

Lemma seen_rows_add_no_user_witness :
  Seed.users_added (Seed.seed (Example.csv ++ Example.csv))
  = Seed.users_added (Seed.seed Example.csv).
Proof.
  refine (proj1 (seen_rows_add_no_user Example.csv Example.csv _)).
  intros r Hr. apply list_elem_of_fmap. by exists r.
Defined.

Lemma more_locations_more_matches_witness :
  matching Example.db [within (40 # 1, -75 # 1) (inject_Z 50)]
  ⊆ matching Example.db_later [within (40 # 1, -75 # 1) (inject_Z 50)].
Proof.
  apply more_locations_more_matches; [reflexivity|].
  intros l Hl. apply elem_of_app. by left.
Defined.

Lemma repeated_parameters_ignored_witness :
  users Example.db (Example.by_gender ++ [("gender", "m")])
  = users Example.db Example.by_gender.
Proof.
  apply repeated_parameters_ignored.
  intros kv ->%list_elem_of_singleton. cbn. set_solver.
Defined.
End Examples.
